(** * plainjob: the SQLite-backed job queue of [src/queue.ts]

    A shallow embedding of [defineQueue]: the two tables of the schema as
    lists of rows kept in rowid order, every prepared statement as a
    function on its table, every queue method as a function on the store.
    [Date.now()] is an explicit argument [now] of the methods that read the
    clock; times are integers (milliseconds). *)

From Stdlib Require Import ZArith String Bool Lia List Sorted Permutation.
Import ListNotations.
Open Scope Z_scope.

(** ** jobs.ts *)

Inductive JobStatus : Set := Pending | Processing | Done | Failed.

Definition JobStatus_eqb (a b : JobStatus) : bool :=
  match a, b with
  | Pending, Pending | Processing, Processing | Done, Done | Failed, Failed => true
  | _, _ => false
  end.

(** A row of [plainjob_jobs]; [failed_at] and [error] are the two nullable
    columns. *)
Module Job.
Record PersistedJob : Set := mk {
  id : Z;
  type : string;
  data : string;
  status : JobStatus;
  createdAt : Z;
  failedAt : option Z;
  error : option string
}.

(** [SET status = s] *)
Definition set_status (s : JobStatus) (j : PersistedJob) : PersistedJob :=
  mk (id j) (type j) (data j) s (createdAt j) (failedAt j) (error j).

(** [SET status = Failed, failed_at = f, error = e] *)
Definition set_failed (f : Z) (e : string) (j : PersistedJob) : PersistedJob :=
  mk (id j) (type j) (data j) Failed (createdAt j) (Some f) (Some e).
End Job.
Abbreviation PersistedJob := Job.PersistedJob.

(** A row of [plainjob_scheduled_jobs]. *)
Module Scheduled.
Inductive ScheduledJobStatus : Set := Idle | Processing.

Definition status_eqb (a b : ScheduledJobStatus) : bool :=
  match a, b with
  | Idle, Idle | Processing, Processing => true
  | _, _ => false
  end.

Record PersistedScheduledJob : Set := mk {
  id : Z;
  type : string;
  status : ScheduledJobStatus;
  createdAt : Z;
  cronExpression : string;
  nextRun : Z
}.

(** [SET cron_expression = c] *)
Definition set_cronExpression (c : string) (j : PersistedScheduledJob) :=
  mk (id j) (type j) (status j) (createdAt j) c (nextRun j).

(** [SET status = s, next_run = n] *)
Definition set_status_nextRun (s : ScheduledJobStatus) (n : Z)
    (j : PersistedScheduledJob) :=
  mk (id j) (type j) s (createdAt j) (cronExpression j) n.
End Scheduled.
Abbreviation PersistedScheduledJob := Scheduled.PersistedScheduledJob.

(** ** The SQL fragment the prepared statements use *)

Section Sql.
Context {Row : Type}.

(** [UPDATE t SET ... WHERE w]: rows keep their place. *)
Definition sql_update (w : Row -> bool) (set : Row -> Row) (rows : list Row)
  : list Row :=
  map (fun r => if w r then set r else r) rows.

(** [DELETE FROM t WHERE w] *)
Definition sql_delete (w : Row -> bool) (rows : list Row) : list Row :=
  filter (fun r => negb (w r)) rows.

(** [changes] of an UPDATE or DELETE, and [SELECT COUNT( * ) ... WHERE w] *)
Definition sql_count (w : Row -> bool) (rows : list Row) : nat :=
  length (filter w rows).

(** [SELECT ... WHERE w] with [.get]: the first matching row. *)
Definition sql_get (w : Row -> bool) (rows : list Row) : option Row :=
  find w rows.

(** [ORDER BY key LIMIT 1] over rows in the order the scan yields them: the
    row with the least key, the first one scanned among equal keys. *)
Fixpoint order_by_limit_1 (key : Row -> Z) (rows : list Row) : option Row :=
  match rows with
  | [] => None
  | r :: rest =>
      match order_by_limit_1 key rest with
      | Some m => if key m <? key r then Some m else Some r
      | None => Some r
      end
  end.

(** A scan of an index: the rows in ascending order of the index key, rows
    of equal key in rowid order.  [before a b] holds when the key of [a]
    sorts strictly before the key of [b]. *)
Fixpoint index_insert (before : Row -> Row -> bool) (r : Row) (scanned : list Row)
  : list Row :=
  match scanned with
  | [] => [r]
  | s :: rest => if before s r then s :: index_insert before r rest
                 else r :: s :: rest
  end.

Definition index_scan (before : Row -> Row -> bool) (rows : list Row) : list Row :=
  fold_right (index_insert before) [] rows.

(** The largest rowid of a table, 0 when it is empty. *)
Definition max_rowid (rowid : Row -> Z) (rows : list Row) : Z :=
  fold_right (fun r m => Z.max (rowid r) m) 0 rows.

(** [INTEGER PRIMARY KEY AUTOINCREMENT]: one more than the largest rowid
    the table holds or has ever held ([seq] is its [sqlite_sequence]). *)
Definition next_rowid (rowid : Row -> Z) (seq : Z) (rows : list Row) : Z :=
  Z.max seq (max_rowid rowid rows) + 1.
End Sql.

(** ** The store: both tables and their [sqlite_sequence] entries *)

Record Store : Set := mkStore {
  plainjob_jobs : list PersistedJob;
  jobs_seq : Z;
  plainjob_scheduled_jobs : list PersistedScheduledJob;
  scheduled_seq : Z
}.

(** The store after the [CREATE TABLE IF NOT EXISTS] of a fresh database. *)
Definition empty_store : Store := mkStore [] 0 [] 0.

Definition with_jobs (rows : list PersistedJob) (st : Store) : Store :=
  mkStore rows (jobs_seq st) (plainjob_scheduled_jobs st) (scheduled_seq st).

Definition with_scheduled (rows : list PersistedScheduledJob) (st : Store) : Store :=
  mkStore (plainjob_jobs st) (jobs_seq st) rows (scheduled_seq st).

(** What a call gives back: a value, or a thrown [Error] with its message. *)
Inductive outcome (A : Type) : Type :=
| Returned (a : A)
| Threw (message : string).
Arguments Returned {A} a.
Arguments Threw {A} message.

(** [db.transaction(fn)()]: the body runs against the store and is
    committed when it returns, rolled back when it throws. *)
Definition transaction {A : Type} (fn : Store -> outcome A * Store) (st : Store)
  : outcome A * Store :=
  match fn st with
  | (Returned a, st') => (Returned a, st')
  | (Threw m, _) => (Threw m, st)
  end.

(** ** The two indexes *)

(** [JobStatus] and [ScheduledJobStatus] as the integers the tables store. *)
Definition JobStatus_code (s : JobStatus) : Z :=
  match s with
  | Pending => 0
  | Processing => 1
  | Done => 2
  | Failed => 3
  end.

Definition ScheduledJobStatus_code (s : Scheduled.ScheduledJobStatus) : Z :=
  match s with
  | Scheduled.Idle => 0
  | Scheduled.Processing => 1
  end.

(** Key order of [idx_jobs_status_type_created_at]: status, then type (byte
    order), then [created_at]. *)
Definition idx_jobs_status_type_created_at (a b : PersistedJob) : bool :=
  (JobStatus_code (Job.status a) <? JobStatus_code (Job.status b))
  || ((JobStatus_code (Job.status a) =? JobStatus_code (Job.status b))
      && (String.ltb (Job.type a) (Job.type b)
          || (String.eqb (Job.type a) (Job.type b)
              && (Job.createdAt a <? Job.createdAt b)))).

(** Key order of [idx_scheduled_jobs_status_type_next_run]. *)
Definition idx_scheduled_jobs_status_type_next_run (a b : PersistedScheduledJob)
  : bool :=
  (ScheduledJobStatus_code (Scheduled.status a)
   <? ScheduledJobStatus_code (Scheduled.status b))
  || ((ScheduledJobStatus_code (Scheduled.status a)
       =? ScheduledJobStatus_code (Scheduled.status b))
      && (String.ltb (Scheduled.type a) (Scheduled.type b)
          || (String.eqb (Scheduled.type a) (Scheduled.type b)
              && (Scheduled.nextRun a <? Scheduled.nextRun b)))).

(** ** Prepared statements on [plainjob_jobs] *)

Definition is_status (s : JobStatus) (j : PersistedJob) : bool :=
  JobStatus_eqb (Job.status j) s.

(** [createdAt < threshold] on a NOT NULL column. *)
Definition created_before (threshold : Z) (j : PersistedJob) : bool :=
  Job.createdAt j <? threshold.

(** [failed_at < threshold]: a NULL [failed_at] compares to NULL, which is
    not true. *)
Definition failed_before (threshold : Z) (j : PersistedJob) : bool :=
  match Job.failedAt j with
  | Some f => f <? threshold
  | None => false
  end.

Definition removeDoneJobsStmt (threshold : Z) : list PersistedJob -> list PersistedJob :=
  sql_delete (fun j => is_status Done j && created_before threshold j).

Definition removeFailedJobsStmt (threshold : Z) : list PersistedJob -> list PersistedJob :=
  sql_delete (fun j => is_status Failed j && failed_before threshold j).

Definition countJobsStmt (rows : list PersistedJob) : nat :=
  length rows.

Definition countJobsByTypeAndStatusStmt (t : string) (s : JobStatus) : list PersistedJob -> nat :=
  sql_count (fun j => is_status s j && String.eqb (Job.type j) t).

Definition countJobsByStatusStmt (s : JobStatus) : list PersistedJob -> nat :=
  sql_count (is_status s).

Definition countJobsByTypeStmt (t : string) : list PersistedJob -> nat :=
  sql_count (fun j => String.eqb (Job.type j) t).

Definition getJobByIdStmt (i : Z) : list PersistedJob -> option PersistedJob :=
  sql_get (fun j => Job.id j =? i).

(** [INSERT INTO plainjob_jobs (type, data, created_at)]: [status] takes its
    default 0, [failed_at] and [error] are NULL; gives [lastInsertRowid]. *)
Definition insertJobStmt (t d : string) (created : Z) (st : Store) : Z * Store :=
  let rowid := next_rowid Job.id (jobs_seq st) (plainjob_jobs st) in
  (rowid,
   mkStore (plainjob_jobs st ++ [Job.mk rowid t d Pending created None None])
           rowid (plainjob_scheduled_jobs st) (scheduled_seq st)).

Definition requeueTimedOutJobsStmt (threshold : Z) : list PersistedJob -> list PersistedJob :=
  sql_update (fun j => is_status Processing j && created_before threshold j)
             (Job.set_status Pending).

(** The subquery of [getAndMarkJobAsProcessingStmt]. *)
Definition oldest_pending (t : string) (rows : list PersistedJob) : option PersistedJob :=
  order_by_limit_1 Job.createdAt
    (filter (fun j => is_status Pending j && String.eqb (Job.type j) t) rows).

(** [UPDATE ... SET status = Processing WHERE id = (SELECT id ... LIMIT 1)];
    an empty subquery is NULL and [id = NULL] selects no row. *)
Definition getAndMarkJobAsProcessingStmt (t : string) (rows : list PersistedJob)
  : list PersistedJob :=
  match oldest_pending t rows with
  | Some c => sql_update (fun j => Job.id j =? Job.id c) (Job.set_status Processing) rows
  | None => rows
  end.

(** [SELECT * ... WHERE status = Processing AND type = @type
    ORDER BY created_at LIMIT 1] *)
Definition getUpdatedJobStmt (t : string) (rows : list PersistedJob) : option PersistedJob :=
  order_by_limit_1 Job.createdAt
    (filter (fun j => is_status Processing j && String.eqb (Job.type j) t) rows).

Definition updateJobStatusStmt (s : JobStatus) (i : Z) : list PersistedJob -> list PersistedJob :=
  sql_update (fun j => Job.id j =? i) (Job.set_status s).

Definition failJobStmt (failed : Z) (e : string) (i : Z) : list PersistedJob -> list PersistedJob :=
  sql_update (fun j => Job.id j =? i) (Job.set_failed failed e).

(** ** Prepared statements on [plainjob_scheduled_jobs] *)

Definition getScheduledJobByIdStmt (i : Z) : list PersistedScheduledJob -> option PersistedScheduledJob :=
  sql_get (fun j => Scheduled.id j =? i).

Definition getScheduledJobByTypeStmt (t : string) : list PersistedScheduledJob -> option PersistedScheduledJob :=
  sql_get (fun j => String.eqb (Scheduled.type j) t).

Definition insertScheduledJobStmt (t cron : string) (next created : Z) (st : Store)
  : Z * Store :=
  let rowid := next_rowid Scheduled.id (scheduled_seq st) (plainjob_scheduled_jobs st) in
  (rowid,
   mkStore (plainjob_jobs st) (jobs_seq st)
           (plainjob_scheduled_jobs st
              ++ [Scheduled.mk rowid t Scheduled.Idle created cron next])
           rowid).

Definition updateScheduledJobCronExpressionStmt (cron : string) (i : Z)
  : list PersistedScheduledJob -> list PersistedScheduledJob :=
  sql_update (fun j => Scheduled.id j =? i) (Scheduled.set_cronExpression cron).

(** The rows with [status = Idle] are found through the index, so they
    come in its order (by type, the status being fixed), and are then
    sorted by [next_run]: of several schedules due with the same [next_run]
    the one whose type sorts first is selected. *)
Definition getNextScheduledJobStmt (now : Z) (rows : list PersistedScheduledJob)
  : option PersistedScheduledJob :=
  order_by_limit_1 Scheduled.nextRun
    (filter (fun j => Scheduled.status_eqb (Scheduled.status j) Scheduled.Idle
                      && (Scheduled.nextRun j <=? now))
       (index_scan idx_scheduled_jobs_status_type_next_run rows)).

Definition updateScheduledJobStatusStmt (s : Scheduled.ScheduledJobStatus) (next : Z) (i : Z)
  : list PersistedScheduledJob -> list PersistedScheduledJob :=
  sql_update (fun j => Scheduled.id j =? i) (Scheduled.set_status_nextRun s next).

(** ** The queue returned by [defineQueue] *)

(** The argument of [countJobs]: [{ type?: string; status?: JobStatus }]. *)
Record CountOpts : Set := mkCountOpts {
  opts_type : option string;
  opts_status : option JobStatus
}.

(** Truthiness of an optional string: [undefined] and [""] are falsy. *)
Definition truthy (s : option string) : bool :=
  match s with
  | Some s => negb (String.eqb s ""%string)
  | None => false
  end.

(** An element of the [jobs] array handed to [insertManyJobs]. *)
Record NewJob : Set := mkNewJob {
  new_type : string;
  new_data : string;
  new_createdAt : Z
}.

Section Queue.

(** Job payloads are [unknown] to the queue; [opts.serializer] (by default
    [JSON.stringify]) turns them into the stored text. *)
Variable Data : Type.
Variable serializer : Data -> string.

(** [cronParser.parseExpression]: returns, or throws on a malformed
    expression. *)
Variable parseExpression : string -> outcome unit.

Definition add (type : string) (data : Data) (now : Z) (st : Store) : Z * Store :=
  let serializedData := serializer data in
  insertJobStmt type serializedData now st.

(** The body of the transaction of [addMany]: one insert per job, each
    [lastInsertRowid] pushed on [ids]. *)
Definition insertManyJobs (jobs : list NewJob) (ids : list Z) (st : Store)
  : list Z * Store :=
  fold_left
    (fun (acc : list Z * Store) (job : NewJob) =>
       let (rowid, st') :=
         insertJobStmt (new_type job) (new_data job) (new_createdAt job) (snd acc) in
       (fst acc ++ [rowid], st'))
    jobs (ids, st).

Definition addMany (type : string) (dataList : list Data) (now : Z) (st : Store)
  : outcome (list Z) * Store :=
  let jobs := map (fun data => mkNewJob type (serializer data) now) dataList in
  transaction
    (fun st => let (ids, st') := insertManyJobs jobs [] st in (Returned ids, st'))
    st.

Definition schedule (type cron : string) (now : Z) (st : Store)
  : outcome Z * Store :=
  match parseExpression cron with
  | Threw message =>
      (Threw ("invalid cron expression provided: " ++ cron ++ " " ++ message)%string,
       st)
  | Returned _ =>
      match getScheduledJobByTypeStmt type (plainjob_scheduled_jobs st) with
      | Some found =>
          (Returned (Scheduled.id found),
           with_scheduled
             (updateScheduledJobCronExpressionStmt cron (Scheduled.id found)
                (plainjob_scheduled_jobs st)) st)
      | None =>
          let (rowid, st') := insertScheduledJobStmt type cron 0 now st in
          (Returned rowid, st')
      end
  end.

(** The four branches test [opts?.type] for truthiness and [opts?.status]
    against [undefined]. *)
Definition countJobs (opts : option CountOpts) (st : Store) : nat :=
  let type := match opts with Some o => opts_type o | None => None end in
  let status := match opts with Some o => opts_status o | None => None end in
  let rows := plainjob_jobs st in
  match type, status with
  | Some t, Some s =>
      if truthy type then countJobsByTypeAndStatusStmt t s rows
      else countJobsByStatusStmt s rows
  | None, Some s => countJobsByStatusStmt s rows
  | Some t, None =>
      if truthy type then countJobsByTypeStmt t rows
      else countJobsStmt rows
  | None, None => countJobsStmt rows
  end.

Definition getJobById (id : Z) (st : Store) : option PersistedJob :=
  getJobByIdStmt id (plainjob_jobs st).

Definition getScheduledJobById (id : Z) (st : Store) : option PersistedScheduledJob :=
  getScheduledJobByIdStmt id (plainjob_scheduled_jobs st).

(** The three maintenance methods return nothing; [result.changes] goes to
    the log and to the optional callback only. *)
Definition requeueTimedOutJobs (timeout : Z) (now : Z) (st : Store) : Store :=
  with_jobs (requeueTimedOutJobsStmt (now - timeout) (plainjob_jobs st)) st.

Definition removeDoneJobs (olderThan : Z) (now : Z) (st : Store) : Store :=
  with_jobs (removeDoneJobsStmt (now - olderThan) (plainjob_jobs st)) st.

Definition removeFailedJobs (olderThan : Z) (now : Z) (st : Store) : Store :=
  with_jobs (removeFailedJobsStmt (now - olderThan) (plainjob_jobs st)) st.

Definition getAndMarkJobAsProcessing (type : string) (st : Store)
  : outcome (option PersistedJob) * Store :=
  transaction
    (fun st =>
       let st' := with_jobs (getAndMarkJobAsProcessingStmt type (plainjob_jobs st)) st in
       (Returned (getUpdatedJobStmt type (plainjob_jobs st')), st'))
    st.

Definition getAndMarkScheduledJobAsProcessing (now : Z) (st : Store)
  : outcome (option PersistedScheduledJob) * Store :=
  transaction
    (fun st =>
       match getNextScheduledJobStmt now (plainjob_scheduled_jobs st) with
       | Some job =>
           (Returned
              (Some (Scheduled.set_status_nextRun Scheduled.Processing
                       (Scheduled.nextRun job) job)),
            with_scheduled
              (updateScheduledJobStatusStmt Scheduled.Processing
                 (Scheduled.nextRun job) (Scheduled.id job)
                 (plainjob_scheduled_jobs st)) st)
       | None => (Returned None, st)
       end)
    st.

Definition markJobAsDone (id : Z) (st : Store) : Store :=
  with_jobs (updateJobStatusStmt Done id (plainjob_jobs st)) st.

Definition markJobAsFailed (id : Z) (error : string) (now : Z) (st : Store) : Store :=
  with_jobs (failJobStmt now error id (plainjob_jobs st)) st.

Definition markScheduledJobAsIdle (id : Z) (nextRun : Z) (st : Store) : Store :=
  with_scheduled
    (updateScheduledJobStatusStmt Scheduled.Idle nextRun id
       (plainjob_scheduled_jobs st)) st.

(** *** Sequences of calls

    A call of a method that writes to the store, and the store after a
    sequence of such calls, each made at its own clock reading. *)
Inductive Call : Type :=
| CallAdd (type : string) (data : Data)
| CallAddMany (type : string) (dataList : list Data)
| CallSchedule (type cron : string)
| CallRequeueTimedOutJobs (timeout : Z)
| CallRemoveDoneJobs (olderThan : Z)
| CallRemoveFailedJobs (olderThan : Z)
| CallGetAndMarkJobAsProcessing (type : string)
| CallGetAndMarkScheduledJobAsProcessing
| CallMarkJobAsDone (id : Z)
| CallMarkJobAsFailed (id : Z) (error : string)
| CallMarkScheduledJobAsIdle (id : Z) (nextRun : Z).

Definition call (now : Z) (c : Call) (st : Store) : Store :=
  match c with
  | CallAdd t d => snd (add t d now st)
  | CallAddMany t ds => snd (addMany t ds now st)
  | CallSchedule t cron => snd (schedule t cron now st)
  | CallRequeueTimedOutJobs timeout => requeueTimedOutJobs timeout now st
  | CallRemoveDoneJobs olderThan => removeDoneJobs olderThan now st
  | CallRemoveFailedJobs olderThan => removeFailedJobs olderThan now st
  | CallGetAndMarkJobAsProcessing t => snd (getAndMarkJobAsProcessing t st)
  | CallGetAndMarkScheduledJobAsProcessing =>
      snd (getAndMarkScheduledJobAsProcessing now st)
  | CallMarkJobAsDone i => markJobAsDone i st
  | CallMarkJobAsFailed i e => markJobAsFailed i e now st
  | CallMarkScheduledJobAsIdle i n => markScheduledJobAsIdle i n st
  end.

Definition calls (cs : list (Z * Call)) (st : Store) : Store :=
  fold_left (fun st nc => call (fst nc) (snd nc) st) cs st.

End Queue.

Arguments add {Data} serializer type data now st.
Arguments addMany {Data} serializer type dataList now st.
Arguments CallAdd {Data} type data.
Arguments CallAddMany {Data} type dataList.
Arguments CallSchedule {Data} type cron.
Arguments CallRequeueTimedOutJobs {Data} timeout.
Arguments CallRemoveDoneJobs {Data} olderThan.
Arguments CallRemoveFailedJobs {Data} olderThan.
Arguments CallGetAndMarkJobAsProcessing {Data} type.
Arguments CallGetAndMarkScheduledJobAsProcessing {Data}.
Arguments CallMarkJobAsDone {Data} id.
Arguments CallMarkJobAsFailed {Data} id error.
Arguments CallMarkScheduledJobAsIdle {Data} id nextRun.
Arguments call {Data} serializer parseExpression now c st.
Arguments calls {Data} serializer parseExpression cs st.

(** ** [addMany] on what the serializer returns at run time

    [serializer] is declared to return a string, and [add] and [addMany]
    above take it at its word.  At run time it can return [undefined]
    ([JSON.stringify], the default, does so for [undefined], for a function
    and for a symbol).  The value then reaches [insertJobStmt.run] as it is
    and the statement throws, [data] being NOT NULL; the exception leaves
    the loop of [insertManyJobs] with the rows of the elements before it
    inserted.  [None] stands for [undefined]. *)
Module Untyped.

Record NewJob : Set := mkNewJob {
  type : string;
  data : option string;
  createdAt : Z
}.

Definition insertJobStmt (job : NewJob) (st : Store) : outcome Z * Store :=
  match data job with
  | Some d =>
      let (rowid, st') := insertJobStmt (type job) d (createdAt job) st in
      (Returned rowid, st')
  | None => (Threw "NOT NULL constraint failed: plainjob_jobs.data"%string, st)
  end.

Fixpoint insertManyJobs (jobs : list NewJob) (ids : list Z) (st : Store)
  : outcome (list Z) * Store :=
  match jobs with
  | [] => (Returned ids, st)
  | job :: rest =>
      match insertJobStmt job st with
      | (Returned rowid, st') => insertManyJobs rest (ids ++ [rowid]) st'
      | (Threw message, st') => (Threw message, st')
      end
  end.

Definition addMany {Data : Type} (serializer : Data -> option string)
    (type : string) (dataList : list Data) (now : Z) (st : Store)
  : outcome (list Z) * Store :=
  let jobs := map (fun data => mkNewJob type (serializer data) now) dataList in
  transaction (insertManyJobs jobs []) st.

End Untyped.

(** ** The remaining queries, the change counts and the maintenance timer *)

(** [SELECT DISTINCT] over the values a scan yields: each value once, in the
    order of first appearance. *)
Fixpoint sql_distinct (values : list string) : list string :=
  match values with
  | [] => []
  | v :: rest => v :: filter (fun x => negb (String.eqb x v)) (sql_distinct rest)
  end.

(** [ORDER BY key]: ascending, rows of equal key in rowid order. *)
Fixpoint insert_by {Row : Type} (key : Row -> Z) (r : Row) (sorted : list Row)
  : list Row :=
  match sorted with
  | [] => [r]
  | s :: rest => if key s <? key r then s :: insert_by key r rest
                 else r :: s :: rest
  end.

Definition order_by {Row : Type} (key : Row -> Z) (rows : list Row) : list Row :=
  fold_right (insert_by key) [] rows.

(** The types are read off the index on [(status, type, created_at)],
    which holds them: they come in its order. *)
Definition getJobTypesStmt (rows : list PersistedJob) : list string :=
  sql_distinct (map Job.type (index_scan idx_jobs_status_type_created_at rows)).

Definition getScheduledJobsStmt (rows : list PersistedScheduledJob)
  : list PersistedScheduledJob :=
  order_by Scheduled.createdAt rows.

Definition getJobTypes (st : Store) : list string :=
  getJobTypesStmt (plainjob_jobs st).

Definition getScheduledJobs (st : Store) : list PersistedScheduledJob :=
  getScheduledJobsStmt (plainjob_scheduled_jobs st).

(** [result.changes] of the three maintenance statements: what the debug
    line and the optional callback are given. *)
Definition requeueTimedOutJobs_changes (timeout : Z) (now : Z) (st : Store) : nat :=
  sql_count (fun j => is_status Processing j && created_before (now - timeout) j)
            (plainjob_jobs st).

Definition removeDoneJobs_changes (olderThan : Z) (now : Z) (st : Store) : nat :=
  sql_count (fun j => is_status Done j && created_before (now - olderThan) j)
            (plainjob_jobs st).

Definition removeFailedJobs_changes (olderThan : Z) (now : Z) (st : Store) : nat :=
  sql_count (fun j => is_status Failed j && failed_before (now - olderThan) j)
            (plainjob_jobs st).

(** The numeric options of [defineQueue]. *)
Module Options.
Record QueueOptions : Set := mk {
  timeout : option Z;
  maintenanceInterval : option Z;
  removeDoneJobsOlderThan : option Z;
  removeFailedJobsOlderThan : option Z
}.
End Options.
Abbreviation QueueOptions := Options.QueueOptions.

(** [opts.x || d] on an optional number: [undefined] and 0 are falsy. *)
Definition or_default (x : option Z) (d : Z) : Z :=
  match x with
  | Some v => if v =? 0 then d else v
  | None => d
  end.

Definition jobProcessingTimeout (opts : QueueOptions) : Z :=
  or_default (Options.timeout opts) (30 * 60 * 1000).

Definition maintenanceInterval (opts : QueueOptions) : Z :=
  or_default (Options.maintenanceInterval opts) (60 * 1000).

Definition removeDoneJobsOlderThan (opts : QueueOptions) : Z :=
  or_default (Options.removeDoneJobsOlderThan opts) (7 * 24 * 60 * 60 * 1000).

Definition removeFailedJobsOlderThan (opts : QueueOptions) : Z :=
  or_default (Options.removeFailedJobsOlderThan opts) (30 * 24 * 60 * 60 * 1000).

(** One run of the callback [initializeMaintenance] hands to [setInterval];
    each of the three methods reads the clock for itself. *)
Definition maintenance (opts : QueueOptions) (now1 now2 now3 : Z) (st : Store) : Store :=
  removeFailedJobs (removeFailedJobsOlderThan opts) now3
    (removeDoneJobs (removeDoneJobsOlderThan opts) now2
       (requeueTimedOutJobs (jobProcessingTimeout opts) now1 st)).

(** ** Predicates the properties are stated with *)

(** The calls that delete no row of [plainjob_jobs]: all but the two
    retention sweeps. *)
Definition keeps_rows {Data : Type} (c : Call Data) : Prop :=
  match c with
  | CallRemoveDoneJobs _ | CallRemoveFailedJobs _ => False
  | _ => True
  end.

(** [j'] is [j] up to the three columns an UPDATE may write. *)
Definition same_creation_fields (j j' : PersistedJob) : Prop :=
  Job.id j' = Job.id j
  /\ Job.type j' = Job.type j
  /\ Job.data j' = Job.data j
  /\ Job.createdAt j' = Job.createdAt j.



(** The primary key of [plainjob_jobs]. *)
Definition unique_ids (st : Store) : Prop :=
  NoDup (map Job.id (plainjob_jobs st)).

(** The UNIQUE constraint on [plainjob_scheduled_jobs.type]. *)
Definition unique_scheduled_types (st : Store) : Prop :=
  NoDup (map Scheduled.type (plainjob_scheduled_jobs st)).

(** The rows one run of [insertManyJobs] appends when the largest rowid
    used so far is [base]: consecutive rowids from [base + 1] on. *)
Fixpoint batch_rows (base : Z) (jobs : list NewJob) : list PersistedJob :=
  match jobs with
  | [] => []
  | job :: jobs =>
      Job.mk (base + 1) (new_type job) (new_data job) Pending (new_createdAt job)
             None None
      :: batch_rows (base + 1) jobs
  end.

(** ** A queue to run examples on

    Payloads that are texts, stored as they are, and a cron parser that
    rejects the expression the test suite rejects and admits the others. *)
Definition example_serializer (data : string) : string := data.

Definition example_parseExpression (cron : string) : outcome unit :=
  if String.eqb cron "invalid cron expression"%string
  then Threw "Invalid characters, got value: invalid"%string
  else Returned tt.

(** Three jobs of type ["t"] enqueued at clock readings 1, 2 and 3. *)
Definition three_jobs : Store :=
  snd (add example_serializer "t"%string "C"%string 3
    (snd (add example_serializer "t"%string "B"%string 2
      (snd (add example_serializer "t"%string "A"%string 1 empty_store))))).

(** One job of type ["t"], enqueued and then handed to a worker. *)
Definition one_job_processing : Store :=
  snd (getAndMarkJobAsProcessing "t"%string
    (snd (add example_serializer "t"%string "A"%string 1 empty_store))).


(** Two jobs done, created at 89 and at 91, and a third still Pending. *)
Definition retention_store : Store :=
  calls example_serializer example_parseExpression
    [(89, CallAdd "t"%string "old"%string);
     (89, CallGetAndMarkJobAsProcessing "t"%string);
     (90, CallMarkJobAsDone 1);
     (91, CallAdd "t"%string "new"%string);
     (91, CallGetAndMarkJobAsProcessing "t"%string);
     (92, CallMarkJobAsDone 2);
     (95, CallAdd "t"%string "waiting"%string)]
    empty_store.

(** Two jobs of type ["t"], the first one handed to a worker that never
    reports back. *)
Definition stuck_store : Store :=
  calls example_serializer example_parseExpression
    [(1, CallAdd "t"%string "A"%string);
     (2, CallAdd "t"%string "B"%string);
     (3, CallGetAndMarkJobAsProcessing "t"%string)]
    empty_store.

(** One schedule, created at clock reading 5. *)
Definition one_schedule : Store :=
  snd (schedule example_parseExpression "report"%string "0 * * * *"%string 5
         empty_store).

(** [JSON.stringify] on payloads that are a text or [undefined]. *)
Definition example_stringify (data : option string) : option string := data.

(** ** Facts about the SQL fragment *)

Lemma JobStatus_eqb_eq a b : JobStatus_eqb a b = true <-> a = b.
Proof. destruct a, b; simpl; split; congruence. Qed.

Lemma JobStatus_eqb_refl a : JobStatus_eqb a a = true.
Proof. now destruct a. Qed.

Section SqlFacts.
Context {Row : Type}.
Implicit Types (w : Row -> bool) (set : Row -> Row) (rows : list Row).

Lemma sql_update_length w set rows :
  length (sql_update w set rows) = length rows.
Proof. apply length_map. Qed.

Lemma sql_update_nth_error w set rows k :
  nth_error (sql_update w set rows) k
  = option_map (fun r => if w r then set r else r) (nth_error rows k).
Proof. unfold sql_update. apply nth_error_map. Qed.

Lemma sql_update_In w set rows r' :
  In r' (sql_update w set rows)
  <-> exists r, In r rows /\ r' = (if w r then set r else r).
Proof.
  unfold sql_update. rewrite in_map_iff.
  split; intros (r & H1 & H2); exists r; auto.
Qed.

Lemma sql_update_app w set rows1 rows2 :
  sql_update w set (rows1 ++ rows2)
  = sql_update w set rows1 ++ sql_update w set rows2.
Proof. apply map_app. Qed.

(** An update that selects no row changes nothing. *)
Lemma sql_update_none w set rows :
  (forall r, In r rows -> w r = false) -> sql_update w set rows = rows.
Proof.
  induction rows as [|r rows IH]; simpl; intros H; [reflexivity|].
  rewrite (H r) by now left. f_equal. apply IH. intros; apply H; now right.
Qed.

(** A column the SET clause leaves alone reads the same in every row. *)
Lemma sql_update_column {C : Type} (col : Row -> C) w set rows :
  (forall r, col (set r) = col r) ->
  map col (sql_update w set rows) = map col rows.
Proof.
  intros Hcol. unfold sql_update. rewrite map_map. apply map_ext.
  intros r. destruct (w r); auto.
Qed.


(** Looking a row up by a key the SET clause leaves alone. *)
Lemma sql_get_update (sel : Row -> bool) w set rows :
  (forall r, sel (set r) = sel r) ->
  sql_get sel (sql_update w set rows)
  = option_map (fun r => if w r then set r else r) (sql_get sel rows).
Proof.
  intros Hsel. unfold sql_get, sql_update.
  induction rows as [|r rows IH]; simpl; [reflexivity|].
  destruct (w r) eqn:W; rewrite ?Hsel; destruct (sel r); simpl; rewrite ?W; auto.
Qed.

Lemma sql_get_app_l (sel : Row -> bool) rows1 rows2 r :
  sql_get sel rows1 = Some r -> sql_get sel (rows1 ++ rows2) = Some r.
Proof.
  unfold sql_get. induction rows1 as [|a l IH]; simpl; [discriminate|].
  destruct (sel a); auto.
Qed.

Lemma sql_get_app_r (sel : Row -> bool) rows1 rows2 :
  sql_get sel rows1 = None -> sql_get sel (rows1 ++ rows2) = sql_get sel rows2.
Proof.
  unfold sql_get. induction rows1 as [|a l IH]; simpl; [reflexivity|].
  destruct (sel a); [discriminate|auto].
Qed.

Lemma sql_get_none (sel : Row -> bool) rows :
  (forall r, In r rows -> sel r = false) -> sql_get sel rows = None.
Proof.
  unfold sql_get. induction rows as [|a l IH]; simpl; intros H; [reflexivity|].
  rewrite (H a) by now left. apply IH. intros; apply H; now right.
Qed.

Lemma sql_delete_In w rows r :
  In r (sql_delete w rows) <-> In r rows /\ w r = false.
Proof.
  unfold sql_delete. rewrite filter_In, negb_true_iff. reflexivity.
Qed.

Lemma order_by_limit_1_In (key : Row -> Z) rows m :
  order_by_limit_1 key rows = Some m -> In m rows.
Proof.
  revert m. induction rows as [|r rows IH]; simpl; intros m H; [discriminate|].
  destruct (order_by_limit_1 key rows) as [m'|].
  - destruct (key m' <? key r); inversion H; subst; auto.
  - inversion H; auto.
Qed.

Lemma order_by_limit_1_least (key : Row -> Z) rows m :
  order_by_limit_1 key rows = Some m -> forall r, In r rows -> key m <= key r.
Proof.
  revert m. induction rows as [|a rows IH]; simpl; intros m H r Hr; [contradiction|].
  destruct (order_by_limit_1 key rows) as [m'|] eqn:E.
  - specialize (IH m' eq_refl).
    destruct (key m' <? key a) eqn:L; inversion H; subst; clear H.
    + apply Z.ltb_lt in L. destruct Hr as [<-|Hr]; [lia|auto].
    + apply Z.ltb_ge in L. destruct Hr as [<-|Hr]; [lia|].
      specialize (IH r Hr). lia.
  - inversion H; subst. destruct Hr as [<-|Hr]; [lia|].
    destruct rows; [contradiction|simpl in E].
    destruct (order_by_limit_1 key rows); [destruct (_ <? _)|]; discriminate.
Qed.

Lemma order_by_limit_1_some (key : Row -> Z) rows r :
  In r rows -> exists m, order_by_limit_1 key rows = Some m.
Proof.
  destruct rows as [|a rows]; simpl; [contradiction|]. intros _.
  destruct (order_by_limit_1 key rows) as [m'|]; [destruct (_ <? _)|]; eauto.
Qed.

Lemma index_insert_Permutation (before : Row -> Row -> bool) r scanned :
  Permutation (index_insert before r scanned) (r :: scanned).
Proof.
  induction scanned as [|s rest IH]; simpl; [reflexivity|].
  destruct (before s r); [|reflexivity].
  rewrite IH. apply perm_swap.
Qed.

(** An index scan yields the rows of the table, each as often as it is there. *)
Lemma index_scan_Permutation (before : Row -> Row -> bool) rows :
  Permutation (index_scan before rows) rows.
Proof.
  unfold index_scan. induction rows as [|r rows IH]; simpl; [reflexivity|].
  rewrite index_insert_Permutation. now constructor.
Qed.

Lemma index_scan_In (before : Row -> Row -> bool) rows r :
  In r (index_scan before rows) <-> In r rows.
Proof.
  split; apply Permutation_in;
    [apply index_scan_Permutation|symmetry; apply index_scan_Permutation].
Qed.

Lemma filter_Permutation (p : Row -> bool) (l l' : list Row) :
  Permutation l l' -> Permutation (filter p l) (filter p l').
Proof.
  induction 1 as [|x l l' _ IH|x y l|l l' l'' _ IH1 _ IH2]; simpl.
  - constructor.
  - destruct (p x); [now constructor|exact IH].
  - destruct (p x), (p y); try reflexivity. apply perm_swap.
  - now transitivity (filter p l').
Qed.

Lemma max_rowid_ge (rowid : Row -> Z) rows r :
  In r rows -> rowid r <= max_rowid rowid rows.
Proof.
  unfold max_rowid. induction rows as [|a rows IH]; simpl; [contradiction|].
  intros [<-|H]; [lia|]. specialize (IH H). lia.
Qed.

Lemma max_rowid_nonneg (rowid : Row -> Z) rows : 0 <= max_rowid rowid rows.
Proof. unfold max_rowid. induction rows; simpl; lia. Qed.

Lemma max_rowid_app (rowid : Row -> Z) rows1 rows2 :
  max_rowid rowid (rows1 ++ rows2)
  = Z.max (max_rowid rowid rows1) (max_rowid rowid rows2).
Proof.
  unfold max_rowid. induction rows1 as [|a rows IH]; simpl.
  - assert (H : 0 <= fold_right (fun r m => Z.max (rowid r) m) 0 rows2).
    { induction rows2; simpl; lia. }
    lia.
  - rewrite IH. lia.
Qed.

(** The next rowid is above every rowid of the table. *)
Lemma next_rowid_fresh (rowid : Row -> Z) seq rows r :
  In r rows -> rowid r < next_rowid rowid seq rows.
Proof.
  intros H. apply (max_rowid_ge rowid) in H. unfold next_rowid. lia.
Qed.

End SqlFacts.

(** ** Retention: [removeDoneJobs] and [removeFailedJobs] *)

Lemma is_status_true s j : is_status s j = true <-> Job.status j = s.
Proof. apply JobStatus_eqb_eq. Qed.

Lemma is_status_false s j : is_status s j = false <-> Job.status j <> s.
Proof.
  rewrite <- is_status_true. destruct (is_status s j); split; congruence.
Qed.

Lemma created_before_true th j :
  created_before th j = true <-> Job.createdAt j < th.
Proof. apply Z.ltb_lt. Qed.

Lemma failed_before_true th j :
  failed_before th j = true <-> exists f, Job.failedAt j = Some f /\ f < th.
Proof.
  unfold failed_before. destruct (Job.failedAt j) as [f|].
  - rewrite Z.ltb_lt. split.
    + intros H. exists f. auto.
    + intros (f' & E & H). inversion E. subst. assumption.
  - split; [discriminate|]. intros (f & E & _). discriminate.
Qed.

Lemma removeDoneJobs_In olderThan now st j :
  In j (plainjob_jobs (removeDoneJobs olderThan now st))
  <-> In j (plainjob_jobs st)
      /\ ~ (Job.status j = Done /\ Job.createdAt j < now - olderThan).
Proof.
  unfold removeDoneJobs, removeDoneJobsStmt. simpl.
  rewrite sql_delete_In, andb_false_iff, is_status_false.
  rewrite <- (created_before_true (now - olderThan) j).
  destruct (created_before (now - olderThan) j); intuition congruence.
Qed.

Lemma removeFailedJobs_In olderThan now st j :
  In j (plainjob_jobs (removeFailedJobs olderThan now st))
  <-> In j (plainjob_jobs st)
      /\ ~ (Job.status j = Failed
            /\ exists f, Job.failedAt j = Some f /\ f < now - olderThan).
Proof.
  unfold removeFailedJobs, removeFailedJobsStmt. simpl.
  rewrite sql_delete_In, andb_false_iff, is_status_false.
  rewrite <- (failed_before_true (now - olderThan) j).
  destruct (failed_before (now - olderThan) j); intuition congruence.
Qed.

(** C5. [removeDoneJobs olderThan] deletes exactly the rows with status Done
    and [createdAt < now - olderThan]; [removeFailedJobs olderThan] deletes
    exactly the rows with status Failed and [failedAt < now - olderThan].
    A Done row created at [now - olderThan - 1] goes, one created at
    [now - olderThan + 1] stays, and a Pending or Processing row is deleted
    by neither. *)
Theorem C5_retention_sweeps (olderThan now : Z) (st : Store) :
  (forall j, In j (plainjob_jobs (removeDoneJobs olderThan now st))
     <-> In j (plainjob_jobs st)
         /\ ~ (Job.status j = Done /\ Job.createdAt j < now - olderThan))
  /\ (forall j, In j (plainjob_jobs (removeFailedJobs olderThan now st))
     <-> In j (plainjob_jobs st)
         /\ ~ (Job.status j = Failed
               /\ exists f, Job.failedAt j = Some f /\ f < now - olderThan))
  /\ (forall j, In j (plainjob_jobs st) -> Job.status j = Done ->
        (Job.createdAt j = now - olderThan - 1 ->
           ~ In j (plainjob_jobs (removeDoneJobs olderThan now st)))
        /\ (Job.createdAt j = now - olderThan + 1 ->
           In j (plainjob_jobs (removeDoneJobs olderThan now st))))
  /\ (forall j, In j (plainjob_jobs st) ->
        Job.status j = Pending \/ Job.status j = Processing ->
        In j (plainjob_jobs (removeDoneJobs olderThan now st))
        /\ In j (plainjob_jobs (removeFailedJobs olderThan now st))).
Proof.
  split; [intros j; apply removeDoneJobs_In|].
  split; [intros j; apply removeFailedJobs_In|].
  split.
  - intros j Hin Hdone. split; intros Hc.
    + rewrite removeDoneJobs_In. intros [_ H]. apply H. split; [assumption|lia].
    + rewrite removeDoneJobs_In. split; [assumption|]. intros [_ H]. lia.
  - intros j Hin Hst. split.
    + rewrite removeDoneJobs_In. split; [assumption|].
      intros [H _]. destruct Hst; congruence.
    + rewrite removeFailedJobs_In. split; [assumption|].
      intros [H _]. destruct Hst; congruence.
Qed.

(** With [olderThan = 10] at [now = 100]: the row created at 89 goes, the row
    created at 91 and the Pending row stay. *)
Lemma C5_retention_sweeps_witness :
  let old := Job.mk 1 "t" "old" Done 89 None None in
  let new := Job.mk 2 "t" "new" Done 91 None None in
  let waiting := Job.mk 3 "t" "waiting" Pending 95 None None in
  plainjob_jobs retention_store = [old; new; waiting]
  /\ ~ In old (plainjob_jobs (removeDoneJobs 10 100 retention_store))
  /\ In new (plainjob_jobs (removeDoneJobs 10 100 retention_store))
  /\ In waiting (plainjob_jobs (removeDoneJobs 10 100 retention_store))
  /\ In waiting (plainjob_jobs (removeFailedJobs 10 100 retention_store)).
Proof.
  intros old new waiting.
  destruct (C5_retention_sweeps 10 100 retention_store) as (_ & _ & Hdone & Hkeep).
  split; [reflexivity|].
  split; [apply (Hdone old); [left; reflexivity|reflexivity|reflexivity]|].
  split; [apply (Hdone new); [right; left; reflexivity|reflexivity|reflexivity]|].
  apply (Hkeep waiting); [right; right; left; reflexivity|left; reflexivity].
Defined.

(** ** [countJobs] *)

(** C10. With [type] the empty string the type filter is dropped:
    [countJobs {type: ""}] is the number of all rows, as [countJobs ()] is,
    and [countJobs {type: "", status: s}] is the number of rows of status
    [s] whatever their type, as [countJobs {status: s}] is. *)
Theorem C10_countJobs_empty_type (s : JobStatus) (st : Store) :
  countJobs (Some (mkCountOpts (Some ""%string) None)) st
    = length (plainjob_jobs st)
  /\ countJobs (Some (mkCountOpts (Some ""%string) None)) st = countJobs None st
  /\ countJobs (Some (mkCountOpts (Some ""%string) (Some s))) st
    = length (filter (fun j => JobStatus_eqb (Job.status j) s) (plainjob_jobs st))
  /\ countJobs (Some (mkCountOpts (Some ""%string) (Some s))) st
    = countJobs (Some (mkCountOpts None (Some s))) st.
Proof. repeat split. Qed.

(** ** [schedule] and malformed cron expressions *)

Section ScheduleFacts.
Variable parseExpression : string -> outcome unit.

Lemma schedule_threw type cron now st message :
  parseExpression cron = Threw message ->
  schedule parseExpression type cron now st
  = (Threw ("invalid cron expression provided: " ++ cron ++ " " ++ message)%string,
     st).
Proof. unfold schedule. intros ->. reflexivity. Qed.

Lemma schedule_returned type cron now st u :
  parseExpression cron = Returned u ->
  exists id, fst (schedule parseExpression type cron now st) = Returned id.
Proof.
  unfold schedule. intros ->.
  destruct (getScheduledJobByTypeStmt type (plainjob_scheduled_jobs st)).
  - eexists. reflexivity.
  - eexists. reflexivity.
Qed.

(** C7. [schedule] throws exactly when the cron expression does not parse;
    the error is the result of the call itself (message
    ["invalid cron expression provided: <cron> <parser message>"]), and the
    store it leaves is the store it was given. *)
Theorem C7_schedule_throws_iff_unparsable (type cron : string) (now : Z) (st : Store) :
  ((exists message, fst (schedule parseExpression type cron now st) = Threw message)
   <-> (exists message, parseExpression cron = Threw message))
  /\ (forall message,
        fst (schedule parseExpression type cron now st) = Threw message ->
        snd (schedule parseExpression type cron now st) = st)
  /\ (forall message,
        parseExpression cron = Threw message ->
        schedule parseExpression type cron now st
        = (Threw ("invalid cron expression provided: " ++ cron ++ " " ++ message)%string,
           st)).
Proof.
  assert (Hthrew : forall message,
             fst (schedule parseExpression type cron now st) = Threw message ->
             exists m, parseExpression cron = Threw m).
  { intros message H. destruct (parseExpression cron) as [u|m] eqn:E.
    - destruct (schedule_returned type cron now st u E) as [id Hid].
      rewrite Hid in H. discriminate.
    - exists m. reflexivity. }
  split; [split|split].
  - intros [message H]. exact (Hthrew message H).
  - intros [m E]. rewrite (schedule_threw type cron now st m E). eexists. reflexivity.
  - intros message H. destruct (Hthrew message H) as [m E].
    rewrite (schedule_threw type cron now st m E). reflexivity.
  - intros message E. apply schedule_threw. assumption.
Qed.

End ScheduleFacts.

(** At the expression the test suite rejects, on a store that already holds a
    schedule. *)
Lemma C7_schedule_throws_iff_unparsable_witness :
  let st := snd (schedule example_parseExpression "invalid" "* * * * *" 5 empty_store) in
  schedule example_parseExpression "invalid" "invalid cron expression" 7 st
  = (Threw "invalid cron expression provided: invalid cron expression Invalid characters, got value: invalid"%string,
     st).
Proof.
  intros st.
  apply (proj2 (proj2 (C7_schedule_throws_iff_unparsable example_parseExpression
                         "invalid" "invalid cron expression" 7 st))).
  reflexivity.
Defined.

(** ** Claiming jobs: what [getAndMarkJobAsProcessing] hands out *)

(** C1. Three jobs A, B, C of type ["t"] enqueued at 1, 2, 3 on a fresh
    store get the ids 1, 2, 3; three successive claims of ["t"] mark them
    Processing one after the other, but each of the three calls returns job
    A (id 1): the re-read selects the oldest Processing row of the type, not
    the row just updated. *)
Theorem C1_three_claims_return_first_job :
  let c1 := getAndMarkJobAsProcessing "t" three_jobs in
  let c2 := getAndMarkJobAsProcessing "t" (snd c1) in
  let c3 := getAndMarkJobAsProcessing "t" (snd c2) in
  let A := Job.mk 1 "t" "A" Processing 1 None None in
  map Job.id (plainjob_jobs three_jobs) = [1; 2; 3]
  /\ map Job.createdAt (plainjob_jobs three_jobs) = [1; 2; 3]
  /\ fst c1 = Returned (Some A)
  /\ fst c2 = Returned (Some A)
  /\ fst c3 = Returned (Some A)
  /\ map Job.status (plainjob_jobs (snd c1)) = [Processing; Pending; Pending]
  /\ map Job.status (plainjob_jobs (snd c2)) = [Processing; Processing; Pending]
  /\ map Job.status (plainjob_jobs (snd c3)) = [Processing; Processing; Processing].
Proof. vm_compute. repeat split. Qed.

(** C2. With one job of type ["t"], already Processing, and no Pending job at
    all, [getAndMarkJobAsProcessing "t"] leaves the store as it is but does
    not return none: it returns the Processing job once more. *)
Theorem C2_claim_without_pending_returns_processing_job :
  let A := Job.mk 1 "t" "A" Processing 1 None None in
  plainjob_jobs one_job_processing = [A]
  /\ getAndMarkJobAsProcessing "t" one_job_processing
     = (Returned (Some A), one_job_processing).
Proof. vm_compute. split; reflexivity. Qed.

(** ** Inserting jobs: [add] and [addMany] *)

Lemma next_rowid_after_insert seq rows t d created :
  let rowid := next_rowid Job.id seq rows in
  Z.max rowid (max_rowid Job.id (rows ++ [Job.mk rowid t d Pending created None None]))
  = rowid.
Proof.
  intros rowid. rewrite max_rowid_app. unfold max_rowid at 2.
  cbn [fold_right Job.id]. subst rowid. unfold next_rowid.
  pose proof (max_rowid_nonneg Job.id rows). lia.
Qed.

Lemma insertManyJobs_cons job jobs ids st :
  insertManyJobs (job :: jobs) ids st
  = insertManyJobs jobs
      (ids ++ [fst (insertJobStmt (new_type job) (new_data job) (new_createdAt job) st)])
      (snd (insertJobStmt (new_type job) (new_data job) (new_createdAt job) st)).
Proof. reflexivity. Qed.

(** [insertManyJobs] pushes the rowids of the rows it appends, in order, and
    touches nothing else. *)
Lemma insertManyJobs_batch jobs : forall ids st,
  let base := Z.max (jobs_seq st) (max_rowid Job.id (plainjob_jobs st)) in
  fst (insertManyJobs jobs ids st) = ids ++ map Job.id (batch_rows base jobs)
  /\ plainjob_jobs (snd (insertManyJobs jobs ids st))
     = plainjob_jobs st ++ batch_rows base jobs
  /\ plainjob_scheduled_jobs (snd (insertManyJobs jobs ids st))
     = plainjob_scheduled_jobs st
  /\ scheduled_seq (snd (insertManyJobs jobs ids st)) = scheduled_seq st.
Proof.
  induction jobs as [|job jobs IH]; intros ids st base.
  - simpl. rewrite !app_nil_r. auto.
  - rewrite insertManyJobs_cons. unfold insertJobStmt. cbn [fst snd].
    match goal with
    | |- context [insertManyJobs jobs ?i ?s] => specialize (IH i s)
    end.
    cbn zeta in IH.
    cbn [jobs_seq plainjob_jobs plainjob_scheduled_jobs scheduled_seq] in IH.
    rewrite next_rowid_after_insert in IH.
    destruct IH as (H1 & H2 & H3 & H4).
    change (next_rowid Job.id (jobs_seq st) (plainjob_jobs st)) with (base + 1) in *.
    simpl batch_rows. simpl map.
    rewrite H1, H2, <- !app_assoc. simpl. auto.
Qed.

Lemma batch_rows_length base jobs : length (batch_rows base jobs) = length jobs.
Proof. revert base. induction jobs; simpl; intros; [reflexivity|]. now rewrite IHjobs. Qed.

Lemma batch_rows_above base jobs r :
  In r (batch_rows base jobs) -> base < Job.id r.
Proof.
  revert base. induction jobs as [|job jobs IH]; simpl; intros base; [contradiction|].
  intros [<-|H]; simpl; [lia|]. specialize (IH _ H). lia.
Qed.

Lemma batch_rows_NoDup base jobs : NoDup (map Job.id (batch_rows base jobs)).
Proof.
  revert base. induction jobs as [|job jobs IH]; simpl; intros base; constructor.
  - rewrite in_map_iff. intros (r & E & H). apply batch_rows_above in H. lia.
  - apply IH.
Qed.

Lemma batch_rows_nth base jobs : forall i job,
  nth_error jobs i = Some job ->
  exists id,
    nth_error (map Job.id (batch_rows base jobs)) i = Some id
    /\ getJobByIdStmt id (batch_rows base jobs)
       = Some (Job.mk id (new_type job) (new_data job) Pending (new_createdAt job)
                 None None).
Proof.
  revert base. induction jobs as [|job0 jobs IH]; intros base [|i] job H;
    simpl in H; try discriminate.
  - inversion H; subst. exists (base + 1). split; [reflexivity|].
    unfold getJobByIdStmt, sql_get. simpl. now rewrite Z.eqb_refl.
  - destruct (IH (base + 1) i job H) as (id & Hid & Hget).
    exists id. split; [exact Hid|].
    unfold getJobByIdStmt, sql_get in *. simpl.
    destruct (base + 1 =? id) eqn:E; [|exact Hget].
    apply Z.eqb_eq in E. apply find_some in Hget as [Hin _].
    apply batch_rows_above in Hin. simpl in Hin. lia.
Qed.

Section QueueFacts.
Variable Data : Type.
Variable serializer : Data -> string.
Variable parseExpression : string -> outcome unit.

Lemma addMany_eq type dataList now st :
  addMany serializer type dataList now st
  = (Returned (fst (insertManyJobs
                      (map (fun data => mkNewJob type (serializer data) now) dataList)
                      [] st)),
     snd (insertManyJobs
            (map (fun data => mkNewJob type (serializer data) now) dataList) [] st)).
Proof.
  unfold addMany, transaction.
  destruct (insertManyJobs _ [] st) as [ids st']. reflexivity.
Qed.

(** What [addMany] inserts and returns. *)
Lemma addMany_batch_in_order
    (type : string) (dataList : list Data) (now : Z) (st : Store) :
  exists (ids : list Z) (batch : list PersistedJob) (st' : Store),
    addMany serializer type dataList now st = (Returned ids, st')
    /\ plainjob_jobs st' = plainjob_jobs st ++ batch
    /\ plainjob_scheduled_jobs st' = plainjob_scheduled_jobs st
    /\ length batch = length dataList
    /\ ids = map Job.id batch
    /\ NoDup ids
    /\ (forall i data, nth_error dataList i = Some data ->
          exists id,
            nth_error ids i = Some id
            /\ getJobById id st = None
            /\ getJobById id st'
               = Some (Job.mk id type (serializer data) Pending now None None)).
Proof.
  set (jobs := map (fun data => mkNewJob type (serializer data) now) dataList).
  set (base := Z.max (jobs_seq st) (max_rowid Job.id (plainjob_jobs st))).
  destruct (insertManyJobs_batch jobs [] st) as (H1 & H2 & H3 & _).
  fold base in H1, H2. simpl in H1.
  exists (map Job.id (batch_rows base jobs)), (batch_rows base jobs),
         (snd (insertManyJobs jobs [] st)).
  assert (Hold : forall r, In r (plainjob_jobs st) -> Job.id r <= base).
  { intros r Hr. apply (max_rowid_ge Job.id) in Hr. unfold base. lia. }
  split; [rewrite addMany_eq; fold jobs; now rewrite H1|].
  split; [exact H2|]. split; [exact H3|].
  split; [rewrite batch_rows_length; apply length_map|].
  split; [reflexivity|]. split; [apply batch_rows_NoDup|].
  intros i data Hi.
  destruct (batch_rows_nth base jobs i (mkNewJob type (serializer data) now))
    as (id & Hid & Hget).
  { unfold jobs. rewrite nth_error_map, Hi. reflexivity. }
  exists id. split; [exact Hid|].
  assert (Hnone : getJobById id st = None).
  { apply sql_get_none. intros r Hr. apply Z.eqb_neq. specialize (Hold r Hr).
    apply find_some in Hget as [Hin _]. apply batch_rows_above in Hin.
    simpl in Hin. lia. }
  split; [exact Hnone|].
  unfold getJobById, getJobByIdStmt in *. rewrite H2, sql_get_app_r by exact Hnone.
  exact Hget.
Qed.

Lemma batch_rows_data base jobs :
  map Job.data (batch_rows base jobs) = map new_data jobs.
Proof.
  revert base. induction jobs as [|job jobs IH]; simpl; intros base; [reflexivity|].
  now rewrite IH.
Qed.

(** Where every element has its text, the run-time loop is the loop above. *)
Lemma Untyped_insertManyJobs_all (jobs : list NewJob) : forall ids st,
  Untyped.insertManyJobs
    (map (fun job => Untyped.mkNewJob (new_type job) (Some (new_data job))
                       (new_createdAt job)) jobs) ids st
  = (Returned (fst (insertManyJobs jobs ids st)), snd (insertManyJobs jobs ids st)).
Proof.
  induction jobs as [|job jobs IH]; intros ids st; [reflexivity|].
  rewrite insertManyJobs_cons. cbn [map Untyped.insertManyJobs].
  unfold Untyped.insertJobStmt. cbn [Untyped.data Untyped.type Untyped.createdAt].
  destruct (insertJobStmt (new_type job) (new_data job) (new_createdAt job) st)
    as [rowid st'] eqn:E.
  cbn [fst snd]. apply IH.
Qed.

(** At the first element without a text the loop is left, the rows of the
    elements before it inserted. *)
Lemma Untyped_insertManyJobs_throws (pre : list NewJob) bad post : forall ids st,
  Untyped.data bad = None ->
  Untyped.insertManyJobs
    (map (fun job => Untyped.mkNewJob (new_type job) (Some (new_data job))
                       (new_createdAt job)) pre ++ bad :: post) ids st
  = (Threw "NOT NULL constraint failed: plainjob_jobs.data"%string,
     snd (insertManyJobs pre ids st)).
Proof.
  induction pre as [|job pre IH]; intros ids st Hbad.
  - cbn [map app Untyped.insertManyJobs]. unfold Untyped.insertJobStmt.
    rewrite Hbad. reflexivity.
  - rewrite insertManyJobs_cons. cbn [map app Untyped.insertManyJobs].
    unfold Untyped.insertJobStmt at 1.
    cbn [Untyped.data Untyped.type Untyped.createdAt].
    destruct (insertJobStmt (new_type job) (new_data job) (new_createdAt job) st)
      as [rowid st'] eqn:E.
    cbn [fst snd]. now apply IH.
Qed.

Lemma first_undefined {A : Type} (f : A -> option string) (l : list A) :
  (forall x, In x l -> f x <> None)
  \/ exists l1 x l2, l = l1 ++ x :: l2
                     /\ (forall y, In y l1 -> f y <> None) /\ f x = None.
Proof.
  induction l as [|a l IH].
  - left. intros x [].
  - destruct (f a) as [v|] eqn:E.
    + destruct IH as [IH|(l1 & x & l2 & -> & H1 & H2)].
      * left. intros x [<-|Hx]; [congruence|auto].
      * right. exists (a :: l1), x, l2. split; [reflexivity|]. split; [|exact H2].
        intros y [<-|Hy]; [congruence|auto].
    + right. exists [], a, l. split; [reflexivity|]. split; [intros y []|exact E].
Qed.

(** The text of an element that has one. *)
Lemma Untyped_jobs_of_texts (serialize : Data -> option string) type now l :
  (forall x, In x l -> serialize x <> None) ->
  map (fun data => Untyped.mkNewJob type (serialize data) now) l
  = map (fun job => Untyped.mkNewJob (new_type job) (Some (new_data job))
                      (new_createdAt job))
      (map (fun data =>
              mkNewJob type
                (match serialize data with Some d => d | None => ""%string end) now)
           l).
Proof.
  intros H. rewrite map_map. apply map_ext_in. intros x Hx. cbn.
  destruct (serialize x) eqn:E; [reflexivity|]. exfalso. exact (H x Hx E).
Qed.

(** C8. [addMany t ds], the serializer returning a string for every
    payload: the call returns, and the store it leaves is the old
    [plainjob_jobs] followed by one new row per element of [ds], nothing else
    touched.  The ids returned are those of the new rows, in the order of
    [ds], pairwise distinct; the [i]-th identifies a Pending row of type [t]
    whose data is the serializer applied to [ds[i]]; before the call none of
    the ids is in the store, after it every one is.
    All or nothing, whatever the serializer returns at run time: either
    every element has its text, the call returns and the whole batch is in
    the store, or some element has none, the call throws and leaves the
    store it was given.  In that case the loop inside the transaction had
    inserted the rows of the elements before the first such one: it is the
    rollback that keeps them from the store. *)
Theorem C8_addMany_inserts_batch_in_order
    (type : string) (dataList : list Data) (now : Z) (st : Store) :
  (exists (ids : list Z) (batch : list PersistedJob) (st' : Store),
     addMany serializer type dataList now st = (Returned ids, st')
     /\ plainjob_jobs st' = plainjob_jobs st ++ batch
     /\ plainjob_scheduled_jobs st' = plainjob_scheduled_jobs st
     /\ length batch = length dataList
     /\ ids = map Job.id batch
     /\ NoDup ids
     /\ (forall i data, nth_error dataList i = Some data ->
           exists id,
             nth_error ids i = Some id
             /\ getJobById id st = None
             /\ getJobById id st'
                = Some (Job.mk id type (serializer data) Pending now None None)))
  /\ Untyped.addMany (fun data => Some (serializer data)) type dataList now st
     = addMany serializer type dataList now st
  /\ (forall serialize : Data -> option string,
        ((forall data, In data dataList -> serialize data <> None)
         /\ exists ids batch st',
              Untyped.addMany serialize type dataList now st = (Returned ids, st')
              /\ plainjob_jobs st' = plainjob_jobs st ++ batch
              /\ plainjob_scheduled_jobs st' = plainjob_scheduled_jobs st
              /\ ids = map Job.id batch
              /\ map (fun r => Some (Job.data r)) batch = map serialize dataList)
        \/ ((exists data, In data dataList /\ serialize data = None)
            /\ exists message,
                 Untyped.addMany serialize type dataList now st = (Threw message, st)))
  /\ (forall (serialize : Data -> option string) before data after,
        dataList = before ++ data :: after ->
        (forall x, In x before -> serialize x <> None) ->
        serialize data = None ->
        (exists message,
           Untyped.addMany serialize type dataList now st = (Threw message, st))
        /\ length (plainjob_jobs
                     (snd (Untyped.insertManyJobs
                             (map (fun x => Untyped.mkNewJob type (serialize x) now)
                                dataList) [] st)))
           = (length (plainjob_jobs st) + length before)%nat).
Proof.
  assert (Hthrow : forall (serialize : Data -> option string) before data after,
             dataList = before ++ data :: after ->
             (forall x, In x before -> serialize x <> None) ->
             serialize data = None ->
             Untyped.insertManyJobs
               (map (fun x => Untyped.mkNewJob type (serialize x) now) dataList) [] st
             = (Threw "NOT NULL constraint failed: plainjob_jobs.data"%string,
                snd (insertManyJobs
                       (map (fun x =>
                               mkNewJob type
                                 (match serialize x with
                                  | Some d => d
                                  | None => ""%string
                                  end) now) before) [] st))).
  { intros serialize before data after -> Hbefore Hdata.
    rewrite map_app. cbn [map].
    rewrite (Untyped_jobs_of_texts serialize type now before Hbefore).
    apply Untyped_insertManyJobs_throws. exact Hdata. }
  split; [apply addMany_batch_in_order|]. split; [|split].
  - unfold Untyped.addMany. rewrite addMany_eq.
    change (map (fun data => Untyped.mkNewJob type (Some (serializer data)) now) dataList)
      with (map (fun data => Untyped.mkNewJob (new_type (mkNewJob type (serializer data) now))
                               (Some (new_data (mkNewJob type (serializer data) now)))
                               (new_createdAt (mkNewJob type (serializer data) now)))
              dataList).
    rewrite <- (map_map (fun data => mkNewJob type (serializer data) now)
                  (fun job => Untyped.mkNewJob (new_type job) (Some (new_data job))
                                (new_createdAt job))).
    unfold transaction. now rewrite Untyped_insertManyJobs_all.
  - intros serialize.
    destruct (first_undefined serialize dataList)
      as [Hall|(before & data & after & E & Hbefore & Hdata)].
    + left. split; [exact Hall|].
      set (jobs := map (fun data =>
                          mkNewJob type
                            (match serialize data with
                             | Some d => d
                             | None => ""%string
                             end) now) dataList).
      destruct (insertManyJobs_batch jobs [] st) as (H1 & H2 & H3 & _).
      cbn zeta in H1, H2. simpl app in H1.
      exists (fst (insertManyJobs jobs [] st)),
             (batch_rows (Z.max (jobs_seq st) (max_rowid Job.id (plainjob_jobs st))) jobs),
             (snd (insertManyJobs jobs [] st)).
      split.
      { unfold Untyped.addMany, transaction.
        rewrite (Untyped_jobs_of_texts serialize type now dataList Hall).
        fold jobs. now rewrite Untyped_insertManyJobs_all. }
      split; [exact H2|]. split; [exact H3|]. split; [exact H1|].
      rewrite <- (map_map Job.data Some), batch_rows_data. unfold jobs.
      rewrite !map_map. apply map_ext_in. intros x Hx. cbn.
      destruct (serialize x) eqn:Ex; [reflexivity|]. exfalso. exact (Hall x Hx Ex).
    + right. split.
      * exists data. split; [|exact Hdata]. rewrite E. apply in_or_app. right. now left.
      * eexists. unfold Untyped.addMany, transaction.
        rewrite (Hthrow serialize before data after E Hbefore Hdata). reflexivity.
  - intros serialize before data after E Hbefore Hdata. split.
    + eexists. unfold Untyped.addMany, transaction.
      rewrite (Hthrow serialize before data after E Hbefore Hdata). reflexivity.
    + rewrite (Hthrow serialize before data after E Hbefore Hdata). cbn [snd].
      destruct (insertManyJobs_batch
                  (map (fun x =>
                          mkNewJob type
                            (match serialize x with
                             | Some d => d
                             | None => ""%string
                             end) now) before) [] st) as (_ & H2 & _).
      rewrite H2, length_app, batch_rows_length, length_map. reflexivity.
Qed.

(** ** What a call leaves of a job: type, data and creation time *)

Lemma same_creation_fields_refl j : same_creation_fields j j.
Proof. repeat split. Qed.

Lemma getJobByIdStmt_update i w set rows j :
  (forall r, Job.id (set r) = Job.id r) ->
  getJobByIdStmt i rows = Some j ->
  getJobByIdStmt i (sql_update w set rows) = Some (if w j then set j else j).
Proof.
  intros Hid H. unfold getJobByIdStmt in *.
  rewrite sql_get_update, H; [reflexivity|].
  intros r. now rewrite Hid.
Qed.

(** An UPDATE whose SET clause writes none of the four columns. *)
Lemma frame_update i w set rows j :
  (forall r, same_creation_fields r (set r)) ->
  getJobByIdStmt i rows = Some j ->
  exists j', getJobByIdStmt i (sql_update w set rows) = Some j'
             /\ same_creation_fields j j'.
Proof.
  intros Hset H. exists (if w j then set j else j). split.
  - apply getJobByIdStmt_update; [|exact H]. intros r. apply (Hset r).
  - destruct (w j); [apply Hset|apply same_creation_fields_refl].
Qed.

Lemma set_status_same_creation_fields s r :
  same_creation_fields r (Job.set_status s r).
Proof. repeat split. Qed.

Lemma set_failed_same_creation_fields f e r :
  same_creation_fields r (Job.set_failed f e r).
Proof. repeat split. Qed.

Lemma getAndMarkJobAsProcessing_store type st :
  snd (getAndMarkJobAsProcessing type st)
  = with_jobs (getAndMarkJobAsProcessingStmt type (plainjob_jobs st)) st.
Proof. reflexivity. Qed.

Lemma getAndMarkJobAsProcessing_result type st :
  fst (getAndMarkJobAsProcessing type st)
  = Returned (getUpdatedJobStmt type
                (getAndMarkJobAsProcessingStmt type (plainjob_jobs st))).
Proof. reflexivity. Qed.

Lemma schedule_jobs type cron now st :
  plainjob_jobs (snd (schedule parseExpression type cron now st)) = plainjob_jobs st.
Proof.
  unfold schedule. destruct (parseExpression cron); [|reflexivity].
  destruct (getScheduledJobByTypeStmt type (plainjob_scheduled_jobs st)); reflexivity.
Qed.

Lemma getAndMarkScheduledJobAsProcessing_jobs now st :
  plainjob_jobs (snd (getAndMarkScheduledJobAsProcessing now st)) = plainjob_jobs st.
Proof.
  unfold getAndMarkScheduledJobAsProcessing, transaction.
  destruct (getNextScheduledJobStmt now (plainjob_scheduled_jobs st)); reflexivity.
Qed.

Lemma addMany_jobs type dataList now st :
  exists batch,
    plainjob_jobs (snd (addMany serializer type dataList now st))
    = plainjob_jobs st ++ batch.
Proof.
  rewrite addMany_eq. simpl snd.
  destruct (insertManyJobs_batch
              (map (fun data => mkNewJob type (serializer data) now) dataList) [] st)
    as (_ & H & _).
  eexists. exact H.
Qed.

(** C9. A job that is in the store before a call of [getAndMarkJobAsProcessing],
    [markJobAsDone], [markJobAsFailed], [requeueTimedOutJobs],
    [markScheduledJobAsIdle], [add], [addMany] or [schedule] (of any call but
    the two retention sweeps) is in the store after it, under the same id
    and with the same type, data and createdAt. *)
Theorem C9_calls_keep_type_data_createdAt
    (now : Z) (c : Call Data) (st : Store) (i : Z) (j : PersistedJob) :
  keeps_rows c ->
  getJobById i st = Some j ->
  exists j',
    getJobById i (call serializer parseExpression now c st) = Some j'
    /\ Job.id j' = Job.id j
    /\ Job.type j' = Job.type j
    /\ Job.data j' = Job.data j
    /\ Job.createdAt j' = Job.createdAt j.
Proof.
  intros Hc Hj. unfold getJobById in *.
  change (exists j',
    getJobByIdStmt i (plainjob_jobs (call serializer parseExpression now c st)) = Some j'
    /\ same_creation_fields j j').
  destruct c; cbn [call]; try (exfalso; exact Hc).
  - (* add *)
    exists j. split; [|apply same_creation_fields_refl].
    simpl. now apply sql_get_app_l.
  - (* addMany *)
    destruct (addMany_jobs type dataList now st) as [batch ->].
    exists j. split; [|apply same_creation_fields_refl]. now apply sql_get_app_l.
  - (* schedule *)
    rewrite schedule_jobs. exists j. split; [assumption|apply same_creation_fields_refl].
  - (* requeueTimedOutJobs *)
    apply frame_update; [apply set_status_same_creation_fields|assumption].
  - (* getAndMarkJobAsProcessing *)
    rewrite getAndMarkJobAsProcessing_store. simpl plainjob_jobs.
    unfold getAndMarkJobAsProcessingStmt.
    destruct (oldest_pending type (plainjob_jobs st)).
    + apply frame_update; [apply set_status_same_creation_fields|assumption].
    + exists j. split; [assumption|apply same_creation_fields_refl].
  - (* getAndMarkScheduledJobAsProcessing *)
    rewrite getAndMarkScheduledJobAsProcessing_jobs.
    exists j. split; [assumption|apply same_creation_fields_refl].
  - (* markJobAsDone *)
    apply frame_update; [apply set_status_same_creation_fields|assumption].
  - (* markJobAsFailed *)
    apply frame_update; [apply set_failed_same_creation_fields|assumption].
  - (* markScheduledJobAsIdle *)
    exists j. split; [assumption|apply same_creation_fields_refl].
Qed.

(** ** Invariants of the stores the calls produce *)


(** A property every call preserves holds after every sequence of calls. *)
Lemma calls_preserve (P : Store -> Prop) :
  (forall now c st, P st -> P (call serializer parseExpression now c st)) ->
  forall cs st, P st -> P (calls serializer parseExpression cs st).
Proof.
  intros Hcall cs. induction cs as [|[now c] cs IH]; intros st H; [exact H|].
  simpl. apply IH, Hcall, H.
Qed.

Lemma insertManyJobs_preserve (P : Store -> Prop) :
  (forall t d created st, P st -> P (snd (insertJobStmt t d created st))) ->
  forall jobs ids st, P st -> P (snd (insertManyJobs jobs ids st)).
Proof.
  intros Hins jobs. induction jobs as [|job jobs IH]; intros ids st H; [exact H|].
  rewrite insertManyJobs_cons. apply IH, Hins, H.
Qed.

Lemma unique_key_eq {Row K : Type} (key : Row -> K) (rows : list Row) a b :
  NoDup (map key rows) -> In a rows -> In b rows -> key a = key b -> a = b.
Proof.
  induction rows as [|r rows IH]; simpl; intros Hnd Ha Hb E; [contradiction|].
  inversion Hnd as [|? ? Hnotin Hnd']; subst.
  destruct Ha as [->|Ha], Hb as [->|Hb]; auto.
  - exfalso. apply Hnotin. rewrite E. now apply in_map.
  - exfalso. apply Hnotin. rewrite <- E. now apply in_map.
Qed.

Lemma NoDup_map_filter {Row K : Type} (key : Row -> K) (p : Row -> bool) rows :
  NoDup (map key rows) -> NoDup (map key (filter p rows)).
Proof.
  induction rows as [|r rows IH]; simpl; intros Hnd; [constructor|].
  inversion Hnd as [|? ? Hnotin Hnd']; subst.
  destruct (p r); simpl; auto. constructor; auto.
  intros Hin. apply Hnotin. rewrite in_map_iff in *.
  destruct Hin as (x & E & Hx). exists x. split; [assumption|].
  now apply filter_In in Hx.
Qed.

Lemma oldest_pending_some t rows c :
  oldest_pending t rows = Some c ->
  In c rows /\ Job.status c = Pending /\ Job.type c = t
  /\ (forall r, In r rows -> Job.status r = Pending -> Job.type r = t ->
        Job.createdAt c <= Job.createdAt r).
Proof.
  unfold oldest_pending. intros H.
  pose proof (order_by_limit_1_In _ _ _ H) as Hin.
  apply filter_In in Hin as (Hin & Hc). apply andb_true_iff in Hc as [Hs Ht].
  apply is_status_true in Hs. apply String.eqb_eq in Ht.
  repeat split; auto.
  intros r Hr Hrs Hrt. apply (order_by_limit_1_least _ _ _ H).
  apply filter_In. split; [assumption|].
  apply andb_true_iff. split; [now apply is_status_true|now apply String.eqb_eq].
Qed.

Lemma oldest_pending_none t rows :
  oldest_pending t rows = None ->
  forall r, In r rows -> Job.type r = t -> Job.status r <> Pending.
Proof.
  unfold oldest_pending. intros H r Hr Ht Hs.
  destruct (order_by_limit_1_some Job.createdAt
              (filter (fun j => is_status Pending j && String.eqb (Job.type j) t) rows) r)
    as [m Hm]; [|congruence].
  apply filter_In. split; [assumption|].
  apply andb_true_iff. split; [now apply is_status_true|now apply String.eqb_eq].
Qed.

(** Without a Pending job of the type the UPDATE selects no row: the store
    is left as it is, and the call returns what the re-read finds in it. *)
Lemma claim_without_pending type st :
  (forall r, In r (plainjob_jobs st) -> Job.type r = type -> Job.status r <> Pending) ->
  getAndMarkJobAsProcessing type st
  = (Returned (getUpdatedJobStmt type (plainjob_jobs st)), st).
Proof.
  intros Hnone.
  assert (E : oldest_pending type (plainjob_jobs st) = None).
  { destruct (oldest_pending type (plainjob_jobs st)) as [c|] eqn:E; [|reflexivity].
    apply oldest_pending_some in E as (Hin & Hs & Ht & _).
    exfalso. exact (Hnone c Hin Ht Hs). }
  unfold getAndMarkJobAsProcessing, transaction, getAndMarkJobAsProcessingStmt.
  rewrite E. destruct st. reflexivity.
Qed.

Lemma insertJobStmt_unique_ids t d created st :
  unique_ids st -> unique_ids (snd (insertJobStmt t d created st)).
Proof.
  unfold unique_ids, insertJobStmt. cbn [snd plainjob_jobs].
  intros H. rewrite map_app. apply NoDup_app.
  - exact H.
  - cbn [map]. constructor; [intros []|constructor].
  - cbn [map Job.id]. intros a Ha [<-|[]]. apply in_map_iff in Ha as (r & E & Hr).
    apply (next_rowid_fresh Job.id (jobs_seq st)) in Hr. lia.
Qed.

(** The primary key stays a key. *)
Lemma call_unique_ids now c st :
  unique_ids st -> unique_ids (call serializer parseExpression now c st).
Proof.
  unfold unique_ids. intros H. destruct c; cbn [call].
  - now apply insertJobStmt_unique_ids.
  - rewrite addMany_eq. simpl snd.
    now apply (insertManyJobs_preserve unique_ids insertJobStmt_unique_ids).
  - now rewrite schedule_jobs.
  - simpl. unfold requeueTimedOutJobsStmt. now rewrite sql_update_column.
  - now apply NoDup_map_filter.
  - now apply NoDup_map_filter.
  - rewrite getAndMarkJobAsProcessing_store. simpl.
    unfold getAndMarkJobAsProcessingStmt.
    destruct (oldest_pending type (plainjob_jobs st)); [|assumption].
    now rewrite sql_update_column.
  - now rewrite getAndMarkScheduledJobAsProcessing_jobs.
  - simpl. unfold updateJobStatusStmt. now rewrite sql_update_column.
  - simpl. unfold failJobStmt. now rewrite sql_update_column.
  - exact H.
Qed.

Lemma calls_unique_ids cs st :
  unique_ids st -> unique_ids (calls serializer parseExpression cs st).
Proof. apply (calls_preserve unique_ids), call_unique_ids. Qed.









(** ** [schedule]: one row per type *)

Lemma getScheduledJobByTypeStmt_none type rows :
  getScheduledJobByTypeStmt type rows = None
  <-> (forall r, In r rows -> Scheduled.type r <> type).
Proof.
  unfold getScheduledJobByTypeStmt, sql_get. split.
  - intros H r Hr E. apply (find_none _ _ H) in Hr. simpl in Hr.
    apply String.eqb_neq in Hr. contradiction.
  - intros H. apply sql_get_none. intros r Hr. apply String.eqb_neq. now apply H.
Qed.

Lemma addMany_scheduled type dataList now st :
  plainjob_scheduled_jobs (snd (addMany serializer type dataList now st))
  = plainjob_scheduled_jobs st.
Proof.
  rewrite addMany_eq. simpl snd.
  destruct (insertManyJobs_batch
              (map (fun data => mkNewJob type (serializer data) now) dataList) [] st)
    as (_ & _ & H & _).
  exact H.
Qed.

Lemma schedule_unique_scheduled_types type cron now st :
  unique_scheduled_types st ->
  unique_scheduled_types (snd (schedule parseExpression type cron now st)).
Proof.
  unfold unique_scheduled_types, schedule. intros H.
  destruct (parseExpression cron); [|exact H].
  destruct (getScheduledJobByTypeStmt type (plainjob_scheduled_jobs st)) eqn:E.
  - simpl. unfold updateScheduledJobCronExpressionStmt.
    now rewrite sql_update_column.
  - unfold insertScheduledJobStmt. cbn [snd plainjob_scheduled_jobs].
    rewrite map_app. apply NoDup_app; [exact H| |].
    + cbn [map]. constructor; [intros []|constructor].
    + cbn [map Scheduled.type]. intros x Hx [<-|[]].
      apply in_map_iff in Hx as (r & Er & Hr).
      rewrite getScheduledJobByTypeStmt_none in E. exact (E r Hr Er).
Qed.

(** The UNIQUE constraint on the type of a schedule is never put to the
    test: no call leaves two rows of one type. *)
Lemma call_unique_scheduled_types now c st :
  unique_scheduled_types st ->
  unique_scheduled_types (call serializer parseExpression now c st).
Proof.
  unfold unique_scheduled_types at 2. intros H. destruct c; cbn [call];
    try exact H.
  - now rewrite addMany_scheduled.
  - now apply schedule_unique_scheduled_types.
  - unfold getAndMarkScheduledJobAsProcessing, transaction.
    destruct (getNextScheduledJobStmt now (plainjob_scheduled_jobs st));
      [|exact H].
    simpl. unfold updateScheduledJobStatusStmt. now rewrite sql_update_column.
  - simpl. unfold updateScheduledJobStatusStmt. now rewrite sql_update_column.
Qed.

(** C6. On a store without a schedule of type [t], [schedule t c1] with a
    cron expression that parses appends one row (status Idle, [nextRun] 0,
    an id no row had) and returns its id; a following [schedule t c2]
    appends nothing, rewrites the cron expression of that row and returns
    the same id.  No sequence of calls from the empty store leaves two
    schedules of one type. *)
Theorem C6_schedule_upserts_by_type
    (type c1 c2 : string) (now1 now2 : Z) (st : Store) :
  (parseExpression c1 = Returned tt ->
   parseExpression c2 = Returned tt ->
   (forall r, In r (plainjob_scheduled_jobs st) -> Scheduled.type r <> type) ->
   exists id,
     let first := schedule parseExpression type c1 now1 st in
     let second := schedule parseExpression type c2 now2 (snd first) in
     fst first = Returned id
     /\ (forall r, In r (plainjob_scheduled_jobs st) -> Scheduled.id r <> id)
     /\ plainjob_scheduled_jobs (snd first)
        = plainjob_scheduled_jobs st
            ++ [Scheduled.mk id type Scheduled.Idle now1 c1 0]
     /\ plainjob_jobs (snd first) = plainjob_jobs st
     /\ fst second = Returned id
     /\ plainjob_scheduled_jobs (snd second)
        = plainjob_scheduled_jobs st
            ++ [Scheduled.mk id type Scheduled.Idle now1 c2 0]
     /\ plainjob_jobs (snd second) = plainjob_jobs st)
  /\ (forall cs : list (Z * Call Data),
        unique_scheduled_types (calls serializer parseExpression cs empty_store)).
Proof.
  split.
  - intros Hc1 Hc2 Hnone.
    set (id := next_rowid Scheduled.id (scheduled_seq st) (plainjob_scheduled_jobs st)).
    assert (Hfresh : forall r, In r (plainjob_scheduled_jobs st) -> Scheduled.id r <> id).
    { intros r Hr. apply (next_rowid_fresh Scheduled.id (scheduled_seq st)) in Hr.
      fold id in Hr. lia. }
    assert (E1 : schedule parseExpression type c1 now1 st
                 = (Returned id,
                    mkStore (plainjob_jobs st) (jobs_seq st)
                      (plainjob_scheduled_jobs st
                         ++ [Scheduled.mk id type Scheduled.Idle now1 c1 0]) id)).
    { unfold schedule. rewrite Hc1.
      apply getScheduledJobByTypeStmt_none in Hnone. rewrite Hnone. reflexivity. }
    exists id. cbn zeta. rewrite E1. cbn [fst snd plainjob_scheduled_jobs plainjob_jobs].
    assert (Hfound : getScheduledJobByTypeStmt type
                       (plainjob_scheduled_jobs st
                          ++ [Scheduled.mk id type Scheduled.Idle now1 c1 0])
                     = Some (Scheduled.mk id type Scheduled.Idle now1 c1 0)).
    { unfold getScheduledJobByTypeStmt. rewrite sql_get_app_r.
      - unfold sql_get. simpl. now rewrite String.eqb_refl.
      - now apply getScheduledJobByTypeStmt_none. }
    unfold schedule. rewrite Hc2. cbn [plainjob_scheduled_jobs]. rewrite Hfound.
    cbn [fst snd with_scheduled plainjob_scheduled_jobs plainjob_jobs Scheduled.id].
    repeat split; auto.
    unfold updateScheduledJobCronExpressionStmt. rewrite sql_update_app.
    rewrite sql_update_none.
    + unfold sql_update. simpl. now rewrite Z.eqb_refl.
    + intros r Hr. apply Z.eqb_neq. now apply Hfresh.
  - intros cs. apply (calls_preserve unique_scheduled_types).
    + intros now c st0. apply call_unique_scheduled_types.
    + constructor.
Qed.

(** ** [requeueTimedOutJobs] and claiming again *)

(** A run of [markJobAsDone] over a list of ids. *)
Lemma calls_markJobAsDone ids : forall st,
  plainjob_jobs
    (calls serializer parseExpression
       (map (fun i => (0, CallMarkJobAsDone i)) ids) st)
  = sql_update (fun r => existsb (Z.eqb (Job.id r)) ids) (Job.set_status Done)
      (plainjob_jobs st).
Proof.
  induction ids as [|x ids IH]; intros st.
  - simpl. symmetry. now apply sql_update_none.
  - simpl map. unfold calls in *. simpl fold_left. rewrite IH.
    cbn [fst snd call markJobAsDone with_jobs plainjob_jobs].
    unfold updateJobStatusStmt, sql_update. rewrite map_map. apply map_ext.
    intros r. simpl existsb. destruct (Job.id r =? x); simpl.
    + now destruct (existsb _ ids).
    + reflexivity.
Qed.

(** When every other row is Done, a claim hands out the one Pending row. *)
Lemma claim_sole_pending (rows : list PersistedJob) (J : PersistedJob) :
  NoDup (map Job.id rows) ->
  In J rows -> Job.status J = Pending ->
  (forall r, In r rows -> r <> J -> Job.status r = Done) ->
  getUpdatedJobStmt (Job.type J) (getAndMarkJobAsProcessingStmt (Job.type J) rows)
  = Some (Job.set_status Processing J).
Proof.
  intros Hnd Hin Hpending Hothers.
  assert (Hfilter : forall (s : JobStatus) (r : PersistedJob) l,
             In r l -> Job.status r = s -> Job.type r = Job.type J ->
             In r (filter (fun j => is_status s j && String.eqb (Job.type j) (Job.type J)) l)).
  { intros s r l Hr Hs Ht. apply filter_In. split; [assumption|].
    apply andb_true_iff. split; [now apply is_status_true|now apply String.eqb_eq]. }
  assert (Hcand : oldest_pending (Job.type J) rows = Some J).
  { destruct (order_by_limit_1_some Job.createdAt _ J
                (Hfilter Pending J rows Hin Hpending eq_refl)) as [c Hc].
    fold (oldest_pending (Job.type J) rows) in Hc. rewrite Hc. f_equal.
    apply oldest_pending_some in Hc as (Hcin & Hcs & _).
    destruct (Z.eq_dec (Job.id c) (Job.id J)) as [E|N].
    - eapply unique_key_eq; eauto.
    - assert (c <> J) as Hne by congruence.
      specialize (Hothers c Hcin Hne). congruence. }
  unfold getAndMarkJobAsProcessingStmt. rewrite Hcand.
  set (rows' := sql_update (fun j => Job.id j =? Job.id J)
                  (Job.set_status Processing) rows).
  assert (Hin' : In (Job.set_status Processing J) rows').
  { apply sql_update_In. exists J. split; [assumption|]. now rewrite Z.eqb_refl. }
  unfold getUpdatedJobStmt.
  destruct (order_by_limit_1_some Job.createdAt _ _
              (Hfilter Processing _ rows' Hin' eq_refl eq_refl)) as [m Hm].
  rewrite Hm. f_equal.
  apply order_by_limit_1_In, filter_In in Hm as (Hmin & Hm).
  apply andb_true_iff in Hm as [Hms _]. apply is_status_true in Hms.
  apply sql_update_In in Hmin as (r & Hr & ->).
  destruct (Job.id r =? Job.id J) eqn:E.
  - apply Z.eqb_eq in E. f_equal. eapply unique_key_eq; eauto.
  - assert (r <> J) as Hne by (intros ->; rewrite Z.eqb_refl in E; discriminate).
    specialize (Hothers r Hr Hne). congruence.
Qed.

(** A Pending job can be handed out: once the other jobs are marked Done,
    the next claim of its type returns it. *)
Lemma pending_job_can_be_claimed (st : Store) (J : PersistedJob) :
  unique_ids st -> In J (plainjob_jobs st) -> Job.status J = Pending ->
  exists cs : list (Z * Call Data),
    fst (getAndMarkJobAsProcessing (Job.type J)
           (calls serializer parseExpression cs st))
    = Returned (Some (Job.set_status Processing J)).
Proof.
  intros Hnd Hin Hpending.
  set (others := map Job.id
                   (filter (fun r => negb (Job.id r =? Job.id J)) (plainjob_jobs st))).
  exists (map (fun i => (0, CallMarkJobAsDone i)) others).
  rewrite getAndMarkJobAsProcessing_result. f_equal.
  assert (Hothers : forall r, In r (plainjob_jobs st) ->
             existsb (Z.eqb (Job.id r)) others = negb (Job.id r =? Job.id J)).
  { intros r Hr. destruct (Job.id r =? Job.id J) eqn:E; simpl.
    - apply not_true_is_false. intros H.
      apply existsb_exists in H as (x & Hx & Ex). apply Z.eqb_eq in Ex. subst x.
      apply in_map_iff in Hx as (r' & Er' & Hr'). apply filter_In in Hr' as [_ Hr'].
      apply Z.eqb_eq in E. rewrite Er', E, Z.eqb_refl in Hr'. discriminate.
    - apply existsb_exists. exists (Job.id r). split; [|apply Z.eqb_refl].
      apply in_map, filter_In. split; [assumption|now rewrite E]. }
  apply claim_sole_pending.
  - apply calls_unique_ids, Hnd.
  - rewrite calls_markJobAsDone. apply sql_update_In. exists J.
    split; [assumption|]. now rewrite (Hothers J Hin), Z.eqb_refl.
  - assumption.
  - intros r' Hr' Hne. rewrite calls_markJobAsDone in Hr'.
    apply sql_update_In in Hr' as (r & Hr & ->).
    rewrite (Hothers r Hr) in *. destruct (Job.id r =? Job.id J) eqn:E; simpl in *.
    + exfalso. apply Hne. apply Z.eqb_eq in E. eapply unique_key_eq; eauto.
    + reflexivity.
Qed.

(** After the requeue no Processing row is older than the threshold, so a
    requeued job that is the oldest Pending one of its type is what the
    next claim marks and what its re-read finds. *)
Lemma requeued_oldest_is_claimed (timeout now : Z) (st : Store) (j : PersistedJob) :
  unique_ids st -> In j (plainjob_jobs st) ->
  Job.status j = Processing -> Job.createdAt j < now - timeout ->
  (forall r, In r (plainjob_jobs (requeueTimedOutJobs timeout now st)) ->
     Job.type r = Job.type j -> Job.status r = Pending ->
     r <> Job.set_status Pending j -> Job.createdAt j < Job.createdAt r) ->
  fst (getAndMarkJobAsProcessing (Job.type j) (requeueTimedOutJobs timeout now st))
  = Returned (Some (Job.set_status Processing j)).
Proof.
  intros Hnd Hin Hs Hc Holdest.
  set (st' := requeueTimedOutJobs timeout now st) in *.
  set (J := Job.set_status Pending j) in *.
  assert (Hnd' : NoDup (map Job.id (plainjob_jobs st'))).
  { apply (call_unique_ids now (CallRequeueTimedOutJobs timeout) st Hnd). }
  assert (HJ : In J (plainjob_jobs st')).
  { apply sql_update_In. exists j. split; [assumption|].
    replace (is_status Processing j) with true by (symmetry; now apply is_status_true).
    replace (created_before (now - timeout) j) with true
      by (symmetry; now apply created_before_true).
    reflexivity. }
  assert (Hlease : forall r, In r (plainjob_jobs st') ->
             Job.status r = Processing -> now - timeout <= Job.createdAt r).
  { intros r' Hr' Hs'. apply sql_update_In in Hr' as (r & Hr & ->).
    destruct (is_status Processing r) eqn:E1; simpl in Hs'; [|].
    - destruct (created_before (now - timeout) r) eqn:E2; simpl in *; [discriminate|].
      unfold created_before in E2. apply Z.ltb_ge in E2. exact E2.
    - apply is_status_false in E1. contradiction. }
  assert (Hfilter : forall (s : JobStatus) (r : PersistedJob) l,
             In r l -> Job.status r = s -> Job.type r = Job.type j ->
             In r (filter (fun x => is_status s x && String.eqb (Job.type x) (Job.type j)) l)).
  { intros s r l Hr Hrs Ht. apply filter_In. split; [assumption|].
    apply andb_true_iff. split; [now apply is_status_true|now apply String.eqb_eq]. }
  assert (Hcand : oldest_pending (Job.type j) (plainjob_jobs st') = Some J).
  { destruct (order_by_limit_1_some Job.createdAt _ J
                (Hfilter Pending J _ HJ eq_refl eq_refl)) as [c Hc'].
    fold (oldest_pending (Job.type j) (plainjob_jobs st')) in Hc'. rewrite Hc'.
    f_equal. apply oldest_pending_some in Hc' as (Hcin & Hcs & Hct & Hleast).
    specialize (Hleast J HJ eq_refl eq_refl).
    destruct (Z.eq_dec (Job.id c) (Job.id J)) as [E|N].
    - eapply unique_key_eq; eauto.
    - assert (c <> J) as Hne by congruence.
      specialize (Holdest c Hcin Hct Hcs Hne). simpl in Hleast. lia. }
  rewrite getAndMarkJobAsProcessing_result. f_equal.
  unfold getAndMarkJobAsProcessingStmt. rewrite Hcand.
  set (rows := sql_update (fun x => Job.id x =? Job.id J)
                 (Job.set_status Processing) (plainjob_jobs st')).
  assert (Hin' : In (Job.set_status Processing j) rows).
  { apply sql_update_In. exists J. split; [assumption|]. now rewrite Z.eqb_refl. }
  unfold getUpdatedJobStmt.
  destruct (order_by_limit_1_some Job.createdAt _ _
              (Hfilter Processing _ rows Hin' eq_refl eq_refl)) as [m Hm].
  rewrite Hm. f_equal.
  pose proof (order_by_limit_1_least _ _ _ Hm _
                (Hfilter Processing _ rows Hin' eq_refl eq_refl)) as Hleast.
  apply order_by_limit_1_In, filter_In in Hm as (Hmin & Hm).
  apply andb_true_iff in Hm as [Hms _]. apply is_status_true in Hms.
  apply sql_update_In in Hmin as (r & Hr & ->).
  destruct (Job.id r =? Job.id J) eqn:E.
  - apply Z.eqb_eq in E. assert (r = J) as -> by (eapply unique_key_eq; eauto).
    reflexivity.
  - specialize (Hlease r Hr Hms). simpl in Hleast. lia.
Qed.

(** C4. [requeueTimedOutJobs timeout] keeps every row in its place, turns
    the rows with status Processing and [createdAt < now - timeout] to
    Pending and leaves each other row as it is; the schedules are not
    touched.  Where ids are unique, a job requeued this way can be handed
    out again: some sequence of calls leads to a store in which
    [getAndMarkJobAsProcessing] of its type returns it, Processing; and
    when every other Pending job of its type was created later, the very
    next [getAndMarkJobAsProcessing] of its type does. *)
Theorem C4_requeue_timed_out_jobs (timeout now : Z) (st : Store) :
  let st' := requeueTimedOutJobs timeout now st in
  length (plainjob_jobs st') = length (plainjob_jobs st)
  /\ plainjob_scheduled_jobs st' = plainjob_scheduled_jobs st
  /\ (forall k j, nth_error (plainjob_jobs st) k = Some j ->
        (Job.status j = Processing /\ Job.createdAt j < now - timeout ->
           nth_error (plainjob_jobs st') k = Some (Job.set_status Pending j))
        /\ (~ (Job.status j = Processing /\ Job.createdAt j < now - timeout) ->
           nth_error (plainjob_jobs st') k = Some j))
  /\ (unique_ids st ->
      forall j, In j (plainjob_jobs st) ->
        Job.status j = Processing -> Job.createdAt j < now - timeout ->
        In (Job.set_status Pending j) (plainjob_jobs st')
        /\ (exists cs : list (Z * Call Data),
              fst (getAndMarkJobAsProcessing (Job.type j)
                     (calls serializer parseExpression cs st'))
              = Returned (Some (Job.set_status Processing j)))
        /\ ((forall r, In r (plainjob_jobs st') ->
               Job.type r = Job.type j -> Job.status r = Pending ->
               r <> Job.set_status Pending j ->
               Job.createdAt j < Job.createdAt r) ->
            fst (getAndMarkJobAsProcessing (Job.type j) st')
            = Returned (Some (Job.set_status Processing j)))).
Proof.
  intros st'.
  assert (Hw : forall j,
             (is_status Processing j && created_before (now - timeout) j) = true
             <-> Job.status j = Processing /\ Job.createdAt j < now - timeout).
  { intros j. now rewrite andb_true_iff, is_status_true, created_before_true. }
  split; [apply sql_update_length|]. split; [reflexivity|]. split.
  - intros k j Hk. subst st'. cbn [requeueTimedOutJobs with_jobs plainjob_jobs].
    unfold requeueTimedOutJobsStmt. rewrite sql_update_nth_error, Hk. simpl.
    split; intros H.
    + apply Hw in H. now rewrite H.
    + destruct (is_status Processing j && created_before (now - timeout) j) eqn:E;
        [|reflexivity].
      apply Hw in E. contradiction.
  - intros Hnd j Hin Hs Hc.
    assert (Hin' : In (Job.set_status Pending j) (plainjob_jobs st')).
    { apply sql_update_In. exists j. split; [assumption|].
      now rewrite (proj2 (Hw j) (conj Hs Hc)). }
    split; [exact Hin'|]. split.
    + apply (pending_job_can_be_claimed st' (Job.set_status Pending j)).
      * apply (call_unique_ids now (CallRequeueTimedOutJobs timeout) st Hnd).
      * exact Hin'.
      * reflexivity.
    + intros Holdest. now apply requeued_oldest_is_claimed.
Qed.

End QueueFacts.

(** ** The properties on the example queue *)

(** Three payloads, the second of them [undefined]: inside the transaction
    the row of the first is inserted, and the call leaves the store as it
    was. *)
Lemma C8_addMany_inserts_batch_in_order_witness :
  (exists message,
     Untyped.addMany example_stringify "paint"
       [Some "red"; None; Some "blue"]%string 5 three_jobs
     = (Threw message, three_jobs))
  /\ length (plainjob_jobs
               (snd (Untyped.insertManyJobs
                       (map (fun x => Untyped.mkNewJob "paint" (example_stringify x) 5)
                          [Some "red"; None; Some "blue"]%string) [] three_jobs)))
     = (length (plainjob_jobs three_jobs) + 1)%nat.
Proof.
  destruct (C8_addMany_inserts_batch_in_order (option string)
              (fun data => match data with Some d => d | None => "null"%string end)
              "paint" [Some "red"; None; Some "blue"]%string 5 three_jobs)
    as (_ & _ & _ & Hrollback).
  apply (Hrollback example_stringify [Some "red"%string] None [Some "blue"%string]).
  - reflexivity.
  - intros x [<-|[]]. discriminate.
  - reflexivity.
Defined.

(** A job that was claimed keeps its type, data and creation time when it is
    marked failed. *)
Lemma C9_calls_keep_type_data_createdAt_witness :
  exists j',
    getJobById 1
      (call example_serializer example_parseExpression 9
         (CallMarkJobAsFailed 1 "boom") one_job_processing) = Some j'
    /\ Job.id j' = 1
    /\ Job.type j' = "t"%string
    /\ Job.data j' = "A"%string
    /\ Job.createdAt j' = 1.
Proof.
  apply (C9_calls_keep_type_data_createdAt string example_serializer
           example_parseExpression 9 (CallMarkJobAsFailed 1 "boom")
           one_job_processing 1 (Job.mk 1 "t" "A" Processing 1 None None)).
  - exact I.
  - reflexivity.
Defined.



(** The job stuck in [stuck_store] is requeued by a sweep with timeout 10 at
    clock reading 100 and is what the next claim returns. *)
Lemma C4_requeue_timed_out_jobs_witness :
  let A := Job.mk 1 "t" "A" Processing 1 None None in
  plainjob_jobs stuck_store = [A; Job.mk 2 "t" "B" Pending 2 None None]
  /\ In (Job.set_status Pending A)
        (plainjob_jobs (requeueTimedOutJobs 10 100 stuck_store))
  /\ fst (getAndMarkJobAsProcessing "t" (requeueTimedOutJobs 10 100 stuck_store))
     = Returned (Some A).
Proof.
  intros A. split; [reflexivity|].
  destruct (C4_requeue_timed_out_jobs string example_serializer
              example_parseExpression 10 100 stuck_store)
    as (_ & _ & _ & Hclaim).
  destruct (Hclaim (ltac:(repeat constructor; simpl; intuition discriminate))
              A (or_introl eq_refl) eq_refl eq_refl)
    as (Hin & _ & Hnext).
  split; [exact Hin|].
  apply Hnext.
  intros r [<-|[<-|[]]] _ _ Hne.
  - exfalso. apply Hne. reflexivity.
  - reflexivity.
Defined.

(** The schedule of the test suite, updated once. *)
Lemma C6_schedule_upserts_by_type_witness :
  exists id,
    let first := schedule example_parseExpression "updateTest" "0 * * * *" 1 empty_store in
    let second := schedule example_parseExpression "updateTest" "*/30 * * * *" 2 (snd first) in
    fst first = Returned id
    /\ (forall r, In r (plainjob_scheduled_jobs empty_store) -> Scheduled.id r <> id)
    /\ plainjob_scheduled_jobs (snd first)
       = plainjob_scheduled_jobs empty_store
           ++ [Scheduled.mk id "updateTest" Scheduled.Idle 1 "0 * * * *" 0]
    /\ plainjob_jobs (snd first) = plainjob_jobs empty_store
    /\ fst second = Returned id
    /\ plainjob_scheduled_jobs (snd second)
       = plainjob_scheduled_jobs empty_store
           ++ [Scheduled.mk id "updateTest" Scheduled.Idle 1 "*/30 * * * *" 0]
    /\ plainjob_jobs (snd second) = plainjob_jobs empty_store.
Proof.
  apply (proj1 (C6_schedule_upserts_by_type string example_serializer
                  example_parseExpression
                  "updateTest" "0 * * * *" "*/30 * * * *" 1 2 empty_store)).
  - reflexivity.
  - reflexivity.
  - intros r [].
Defined.

(** * Further properties of the queue *)

(** ** Looking jobs up after [add], [markJobAsDone] and [markJobAsFailed] *)

Lemma getJobByIdStmt_some i rows j :
  getJobByIdStmt i rows = Some j -> In j rows /\ Job.id j = i.
Proof.
  unfold getJobByIdStmt, sql_get. intros H. apply find_some in H as [Hin E].
  apply Z.eqb_eq in E. auto.
Qed.

Lemma getJobByIdStmt_none i rows :
  getJobByIdStmt i rows = None <-> (forall r, In r rows -> Job.id r <> i).
Proof.
  unfold getJobByIdStmt, sql_get. split.
  - intros H r Hr E. apply (find_none _ _ H) in Hr. simpl in Hr.
    apply Z.eqb_neq in Hr. contradiction.
  - intros H. apply sql_get_none. intros r Hr. apply Z.eqb_neq. now apply H.
Qed.

(** An UPDATE by id is not seen when another id is looked up. *)
Lemma getJobByIdStmt_update_other i i' set rows :
  (forall r, Job.id (set r) = Job.id r) -> i' <> i ->
  getJobByIdStmt i' (sql_update (fun j => Job.id j =? i) set rows)
  = getJobByIdStmt i' rows.
Proof.
  intros Hid Hne. destruct (getJobByIdStmt i' rows) as [j|] eqn:E.
  - rewrite (getJobByIdStmt_update i' _ set rows j Hid E).
    apply getJobByIdStmt_some in E as [_ E].
    replace (Job.id j =? i) with false; [reflexivity|].
    symmetry. apply Z.eqb_neq. congruence.
  - apply getJobByIdStmt_none. intros r' Hr'.
    apply sql_update_In in Hr' as (r & Hr & ->).
    rewrite getJobByIdStmt_none in E. specialize (E r Hr).
    destruct (Job.id r =? i); [rewrite Hid|]; exact E.
Qed.

Lemma with_jobs_same st : with_jobs (plainjob_jobs st) st = st.
Proof. now destruct st. Qed.

Section MoreQueueFacts.
Variable Data : Type.
Variable serializer : Data -> string.
Variable parseExpression : string -> outcome unit.

(** X1. The id [add] returns was not in the store; looked up afterwards it
    gives a Pending row of the given type, created at the clock reading of
    the call, whose data is the serialized payload and whose [failedAt] and
    [error] are unset.  Every other id looks up as before, and the schedules
    are not touched. *)
Theorem X1_add_then_getJobById (type : string) (data : Data) (now : Z) (st : Store) :
  let id := fst (add serializer type data now st) in
  let st' := snd (add serializer type data now st) in
  getJobById id st = None
  /\ getJobById id st'
     = Some (Job.mk id type (serializer data) Pending now None None)
  /\ (forall i, i <> id -> getJobById i st' = getJobById i st)
  /\ plainjob_scheduled_jobs st' = plainjob_scheduled_jobs st.
Proof.
  intros id st'.
  assert (Hnone : getJobById id st = None).
  { apply getJobByIdStmt_none. intros r Hr.
    apply (next_rowid_fresh Job.id (jobs_seq st)) in Hr.
    unfold id, add, insertJobStmt. cbn [fst]. lia. }
  split; [exact Hnone|]. split; [|split; [|reflexivity]].
  - unfold getJobById, getJobByIdStmt in *. subst st'.
    unfold add, insertJobStmt. cbn [snd plainjob_jobs].
    rewrite sql_get_app_r by exact Hnone.
    unfold sql_get. cbn [find Job.id]. fold id.
    change (fst (add serializer type data now st)) with id.
    now rewrite Z.eqb_refl.
  - intros i Hi. unfold getJobById, getJobByIdStmt. subst st'.
    unfold add, insertJobStmt. cbn [snd plainjob_jobs].
    destruct (sql_get (fun j => Job.id j =? i) (plainjob_jobs st)) as [j|] eqn:E.
    + now apply sql_get_app_l.
    + rewrite sql_get_app_r by exact E. unfold sql_get. cbn [find Job.id].
      replace (next_rowid Job.id (jobs_seq st) (plainjob_jobs st) =? i) with false;
        [reflexivity|].
      symmetry. apply Z.eqb_neq. intros E'. apply Hi. rewrite <- E'. reflexivity.
Qed.

(** X4. Marking a job that is not in the store as done or as failed changes
    nothing: the store after the call is the store before it. *)
Theorem X4_mark_missing_job_is_noop (i : Z) (e : string) (now : Z) (st : Store) :
  getJobById i st = None ->
  markJobAsDone i st = st /\ markJobAsFailed i e now st = st.
Proof.
  intros H. pose proof (proj1 (getJobByIdStmt_none _ _) H) as Hnone. clear H.
  rename Hnone into H.
  unfold markJobAsDone, markJobAsFailed, updateJobStatusStmt, failJobStmt.
  rewrite !sql_update_none.
  - split; apply with_jobs_same.
  - intros r Hr. apply Z.eqb_neq. now apply H.
  - intros r Hr. apply Z.eqb_neq. now apply H.
Qed.

(** X5. For a job in the store, [markJobAsFailed] leaves it Failed with the
    given error and the clock reading as [failedAt]; [markJobAsDone] leaves
    it Done and does not touch [failedAt] and [error].  Neither changes what
    any other id looks up. *)
Theorem X5_mark_then_getJobById
    (i : Z) (e : string) (now : Z) (st : Store) (j : PersistedJob) :
  getJobById i st = Some j ->
  getJobById i (markJobAsFailed i e now st)
  = Some (Job.mk i (Job.type j) (Job.data j) Failed (Job.createdAt j)
            (Some now) (Some e))
  /\ getJobById i (markJobAsDone i st)
     = Some (Job.mk i (Job.type j) (Job.data j) Done (Job.createdAt j)
               (Job.failedAt j) (Job.error j))
  /\ (forall i', i' <> i ->
        getJobById i' (markJobAsFailed i e now st) = getJobById i' st
        /\ getJobById i' (markJobAsDone i st) = getJobById i' st).
Proof.
  intros H. unfold getJobById in *.
  destruct (getJobByIdStmt_some _ _ _ H) as [_ Hid].
  unfold markJobAsFailed, markJobAsDone, failJobStmt, updateJobStatusStmt.
  cbn [with_jobs plainjob_jobs]. split; [|split].
  - rewrite (getJobByIdStmt_update i _ _ _ j) by (auto || reflexivity).
    rewrite Hid, Z.eqb_refl. unfold Job.set_failed. now rewrite Hid.
  - rewrite (getJobByIdStmt_update i _ _ _ j) by (auto || reflexivity).
    rewrite Hid, Z.eqb_refl. unfold Job.set_status. now rewrite Hid.
  - intros i' Hne. split; apply getJobByIdStmt_update_other; auto.
Qed.

(** ** Rowids: ascending, bounded by [sqlite_sequence], never handed out twice *)

Lemma schedule_jobs_seq type cron now st :
  jobs_seq (snd (schedule parseExpression type cron now st)) = jobs_seq st.
Proof.
  unfold schedule. destruct (parseExpression cron); [|reflexivity].
  destruct (getScheduledJobByTypeStmt type (plainjob_scheduled_jobs st)); reflexivity.
Qed.

Lemma getAndMarkScheduledJobAsProcessing_jobs_seq now st :
  jobs_seq (snd (getAndMarkScheduledJobAsProcessing now st)) = jobs_seq st.
Proof.
  unfold getAndMarkScheduledJobAsProcessing, transaction.
  destruct (getNextScheduledJobStmt now (plainjob_scheduled_jobs st)); reflexivity.
Qed.

Lemma insertJobStmt_jobs_seq t d created st :
  jobs_seq st < jobs_seq (snd (insertJobStmt t d created st)).
Proof. unfold insertJobStmt, next_rowid. cbn [snd jobs_seq]. lia. Qed.

(** No call lowers the [sqlite_sequence] entry of the jobs table. *)
Lemma call_jobs_seq now c st :
  jobs_seq st <= jobs_seq (call serializer parseExpression now c st).
Proof.
  destruct c; cbn [call]; try (cbn; lia).
  - pose proof (insertJobStmt_jobs_seq type (serializer data) now st).
    unfold add. lia.
  - rewrite addMany_eq. cbn [snd].
    apply (insertManyJobs_preserve (fun s => jobs_seq st <= jobs_seq s)); [|lia].
    intros t d created s Hs. pose proof (insertJobStmt_jobs_seq t d created s). lia.
  - rewrite schedule_jobs_seq. lia.
  - rewrite getAndMarkScheduledJobAsProcessing_jobs_seq. lia.
Qed.

Lemma calls_jobs_seq cs st :
  jobs_seq st <= jobs_seq (calls serializer parseExpression cs st).
Proof.
  apply (calls_preserve Data serializer parseExpression (fun s => jobs_seq st <= jobs_seq s));
    [|lia].
  intros now c s Hs. pose proof (call_jobs_seq now c s). lia.
Qed.

(** X2. An id that [add] has returned is never returned by a later [add],
    whatever calls are made in between, the retention sweeps that delete
    the job included: the later id is the larger one. *)
Theorem X2_add_never_reuses_an_id
    (type1 type2 : string) (data1 data2 : Data) (now1 now2 : Z)
    (cs : list (Z * Call Data)) (st : Store) :
  let first := add serializer type1 data1 now1 st in
  let later := add serializer type2 data2 now2
                 (calls serializer parseExpression cs (snd first)) in
  fst first < fst later.
Proof.
  intros first later.
  pose proof (calls_jobs_seq cs (snd first)) as H.
  subst first later. unfold add, insertJobStmt in *. cbn [fst snd jobs_seq] in *.
  unfold next_rowid at 2. lia.
Qed.

Lemma StronglySorted_snoc (l : list Z) (x : Z) :
  StronglySorted Z.lt l -> (forall y, In y l -> y < x) ->
  StronglySorted Z.lt (l ++ [x]).
Proof.
  induction l as [|a l IH]; simpl; intros Hs Hlt.
  - repeat constructor.
  - inversion Hs as [|? ? Hs' Hall]; subst. constructor.
    + apply IH; auto.
    + apply Forall_app. split; [assumption|]. constructor; auto.
Qed.

Lemma StronglySorted_map_filter {Row : Type} (key : Row -> Z) (p : Row -> bool) rows :
  StronglySorted Z.lt (map key rows) ->
  StronglySorted Z.lt (map key (filter p rows)).
Proof.
  induction rows as [|r rows IH]; simpl; intros Hs; [constructor|].
  inversion Hs as [|? ? Hs' Hall]; subst.
  destruct (p r); simpl; auto. constructor; auto.
  rewrite Forall_forall in *. intros x Hx. apply Hall.
  apply in_map_iff in Hx as (y & <- & Hy). apply in_map.
  now apply filter_In in Hy.
Qed.

(** The jobs table is in ascending rowid order, and no rowid is above the
    [sqlite_sequence] entry or below 1. *)
Lemma call_rowids now c st :
  StronglySorted Z.lt (map Job.id (plainjob_jobs st))
  /\ (forall j, In j (plainjob_jobs st) -> 0 < Job.id j <= jobs_seq st) ->
  StronglySorted Z.lt
    (map Job.id (plainjob_jobs (call serializer parseExpression now c st)))
  /\ (forall j, In j (plainjob_jobs (call serializer parseExpression now c st)) ->
        0 < Job.id j <= jobs_seq (call serializer parseExpression now c st)).
Proof.
  assert (Hins : forall t d created s,
             StronglySorted Z.lt (map Job.id (plainjob_jobs s))
             /\ (forall j, In j (plainjob_jobs s) -> 0 < Job.id j <= jobs_seq s) ->
             StronglySorted Z.lt
               (map Job.id (plainjob_jobs (snd (insertJobStmt t d created s))))
             /\ (forall j, In j (plainjob_jobs (snd (insertJobStmt t d created s))) ->
                   0 < Job.id j <= jobs_seq (snd (insertJobStmt t d created s)))).
  { intros t d created s [Hs Hb]. unfold insertJobStmt.
    cbn [snd plainjob_jobs jobs_seq].
    pose proof (max_rowid_nonneg Job.id (plainjob_jobs s)) as Hnn.
    split.
    - rewrite map_app. cbn [map Job.id]. apply StronglySorted_snoc; [assumption|].
      intros y Hy. apply in_map_iff in Hy as (r & <- & Hr).
      now apply next_rowid_fresh.
    - intros j Hj. apply in_app_or in Hj as [Hj|[<-|[]]].
      + specialize (Hb j Hj). unfold next_rowid. lia.
      + cbn [Job.id]. unfold next_rowid. lia. }
  assert (Hupd : forall w set,
             (forall r, Job.id (set r) = Job.id r) ->
             StronglySorted Z.lt (map Job.id (plainjob_jobs st))
             /\ (forall j, In j (plainjob_jobs st) -> 0 < Job.id j <= jobs_seq st) ->
             StronglySorted Z.lt (map Job.id (sql_update w set (plainjob_jobs st)))
             /\ (forall j, In j (sql_update w set (plainjob_jobs st)) ->
                   0 < Job.id j <= jobs_seq st)).
  { intros w set Hid [Hs Hb]. split; [now rewrite sql_update_column|].
    intros j Hj. apply sql_update_In in Hj as (r & Hr & ->).
    specialize (Hb r Hr). destruct (w r); [rewrite Hid|]; exact Hb. }
  assert (Hdel : forall w,
             StronglySorted Z.lt (map Job.id (plainjob_jobs st))
             /\ (forall j, In j (plainjob_jobs st) -> 0 < Job.id j <= jobs_seq st) ->
             StronglySorted Z.lt (map Job.id (sql_delete w (plainjob_jobs st)))
             /\ (forall j, In j (sql_delete w (plainjob_jobs st)) ->
                   0 < Job.id j <= jobs_seq st)).
  { intros w [Hs Hb]. split; [now apply StronglySorted_map_filter|].
    intros j Hj. apply sql_delete_In in Hj as [Hj _]. auto. }
  intros H. destruct c; cbn [call].
  - apply Hins, H.
  - rewrite addMany_eq. cbn [snd].
    apply (insertManyJobs_preserve
             (fun s => StronglySorted Z.lt (map Job.id (plainjob_jobs s))
                       /\ (forall j, In j (plainjob_jobs s) ->
                             0 < Job.id j <= jobs_seq s)) Hins), H.
  - rewrite schedule_jobs, schedule_jobs_seq. exact H.
  - apply Hupd; [reflexivity|exact H].
  - apply Hdel, H.
  - apply Hdel, H.
  - rewrite getAndMarkJobAsProcessing_store. cbn [with_jobs plainjob_jobs jobs_seq].
    unfold getAndMarkJobAsProcessingStmt.
    destruct (oldest_pending type (plainjob_jobs st)); [|exact H].
    apply Hupd; [reflexivity|exact H].
  - rewrite getAndMarkScheduledJobAsProcessing_jobs,
      getAndMarkScheduledJobAsProcessing_jobs_seq. exact H.
  - apply Hupd; [reflexivity|exact H].
  - apply Hupd; [reflexivity|exact H].
  - exact H.
Qed.

(** X3. In every store reached from the empty one, the rows of the jobs
    table are in strictly ascending id order (so no two rows share an id),
    and every id is at least 1 and at most the [sqlite_sequence] entry of
    the table. *)
Theorem X3_rowids_ascending_and_bounded (cs : list (Z * Call Data)) :
  let st := calls serializer parseExpression cs empty_store in
  StronglySorted Z.lt (map Job.id (plainjob_jobs st))
  /\ unique_ids st
  /\ (forall j, In j (plainjob_jobs st) -> 0 < Job.id j <= jobs_seq st).
Proof.
  intros st.
  assert (H : StronglySorted Z.lt (map Job.id (plainjob_jobs st))
              /\ (forall j, In j (plainjob_jobs st) -> 0 < Job.id j <= jobs_seq st)).
  { apply (calls_preserve Data serializer parseExpression
             (fun s => StronglySorted Z.lt (map Job.id (plainjob_jobs s))
                       /\ (forall j, In j (plainjob_jobs s) ->
                             0 < Job.id j <= jobs_seq s))).
    - intros now c s. apply call_rowids.
    - split; [constructor|intros j []]. }
  destruct H as [Hs Hb]. split; [exact Hs|]. split; [|exact Hb].
  apply calls_unique_ids. constructor.
Qed.

(** ** [countJobs] *)

Lemma truthy_nonempty t : t <> ""%string -> truthy (Some t) = true.
Proof. intros H. simpl. apply negb_true_iff, String.eqb_neq, H. Qed.

Lemma filter_all {A : Type} (p : A -> bool) (l : list A) :
  (forall x, In x l -> p x = true) -> filter p l = l.
Proof.
  induction l as [|a l IH]; simpl; intros H; [reflexivity|].
  rewrite (H a) by now left. f_equal. apply IH. intros; apply H; now right.
Qed.

Lemma filter_none {A : Type} (p : A -> bool) (l : list A) :
  (forall x, In x l -> p x = false) -> filter p l = [].
Proof.
  induction l as [|a l IH]; simpl; intros H; [reflexivity|].
  rewrite (H a) by now left. apply IH. intros; apply H; now right.
Qed.

Lemma sql_count_app {Row : Type} (w : Row -> bool) rows1 rows2 :
  sql_count w (rows1 ++ rows2) = (sql_count w rows1 + sql_count w rows2)%nat.
Proof. unfold sql_count. now rewrite filter_app, length_app. Qed.

Lemma sql_count_by_status (p : PersistedJob -> bool) rows :
  sql_count p rows
  = (sql_count (fun j => is_status Pending j && p j) rows
     + sql_count (fun j => is_status Processing j && p j) rows
     + sql_count (fun j => is_status Done j && p j) rows
     + sql_count (fun j => is_status Failed j && p j) rows)%nat.
Proof.
  unfold sql_count, is_status. induction rows as [|r rows IH]; [reflexivity|].
  cbn [filter]. destruct (p r); destruct (Job.status r); simpl; lia.
Qed.

(** X7. The counts by status add up: [countJobs ()] is the sum of
    [countJobs {status: s}] over the four statuses, and for a non-empty type
    [t], [countJobs {type: t}] is the sum of [countJobs {type: t, status: s}]
    over them. *)
Theorem X7_countJobs_adds_up_over_statuses (t : string) (st : Store) :
  let by_status s := countJobs (Some (mkCountOpts None (Some s))) st in
  let by_type_and_status s := countJobs (Some (mkCountOpts (Some t) (Some s))) st in
  countJobs None st
  = (by_status Pending + by_status Processing + by_status Done + by_status Failed)%nat
  /\ (t <> ""%string ->
      countJobs (Some (mkCountOpts (Some t) None)) st
      = (by_type_and_status Pending + by_type_and_status Processing
         + by_type_and_status Done + by_type_and_status Failed)%nat).
Proof.
  cbn zeta. split.
  - unfold countJobs. cbn. unfold countJobsStmt, countJobsByStatusStmt.
    pose proof (sql_count_by_status (fun _ => true) (plainjob_jobs st)) as H.
    unfold sql_count in *.
    rewrite (filter_all (fun _ => true)) in H by reflexivity. rewrite H.
    assert (E : forall s, filter (fun j => is_status s j && true) (plainjob_jobs st)
                          = filter (is_status s) (plainjob_jobs st)).
    { intros s. apply filter_ext. intros j. apply andb_true_r. }
    now rewrite !E.
  - intros Ht. unfold countJobs. cbn [opts_type opts_status].
    rewrite (truthy_nonempty t Ht).
    unfold countJobsByTypeStmt, countJobsByTypeAndStatusStmt.
    apply sql_count_by_status.
Qed.

Lemma batch_rows_all base jobs r :
  In r (batch_rows base jobs) ->
  Job.status r = Pending
  /\ exists job, In job jobs /\ Job.type r = new_type job.
Proof.
  revert base. induction jobs as [|job jobs IH]; simpl; intros base; [contradiction|].
  intros [<-|H].
  - split; [reflexivity|]. exists job. auto.
  - destruct (IH _ H) as [Hs (job' & Hin & Ht)]. split; [assumption|].
    exists job'. auto.
Qed.

(** X8. [addMany t ds] raises [countJobs ()] by the length of [ds] and, for a
    non-empty [t], [countJobs {type: t}] and
    [countJobs {type: t, status: Pending}] by the same; the count of every
    other non-empty type and of every other status stays as it was. *)
Theorem X8_addMany_counts (t : string) (ds : list Data) (now : Z) (st : Store) :
  let st' := snd (addMany serializer t ds now st) in
  countJobs None st' = (countJobs None st + length ds)%nat
  /\ (t <> ""%string ->
      countJobs (Some (mkCountOpts (Some t) None)) st'
      = (countJobs (Some (mkCountOpts (Some t) None)) st + length ds)%nat
      /\ countJobs (Some (mkCountOpts (Some t) (Some Pending))) st'
         = (countJobs (Some (mkCountOpts (Some t) (Some Pending))) st + length ds)%nat)
  /\ (forall t', t' <> ""%string -> t' <> t ->
        countJobs (Some (mkCountOpts (Some t') None)) st'
        = countJobs (Some (mkCountOpts (Some t') None)) st)
  /\ (forall s, s <> Pending ->
        countJobs (Some (mkCountOpts None (Some s))) st'
        = countJobs (Some (mkCountOpts None (Some s))) st).
Proof.
  intros st'. subst st'. rewrite addMany_eq. cbn [snd].
  set (jobs := map (fun data => mkNewJob t (serializer data) now) ds).
  destruct (insertManyJobs_batch jobs [] st) as (_ & Hrows & _).
  set (base := Z.max (jobs_seq st) (max_rowid Job.id (plainjob_jobs st))) in *.
  cbn zeta in Hrows.
  assert (Hlen : length (batch_rows base jobs) = length ds).
  { rewrite batch_rows_length. apply length_map. }
  assert (Hall : forall r, In r (batch_rows base jobs) ->
             Job.status r = Pending /\ Job.type r = t).
  { intros r Hr. destruct (batch_rows_all _ _ _ Hr) as [Hs (job & Hin & Ht)].
    split; [assumption|]. rewrite Ht. unfold jobs in Hin.
    apply in_map_iff in Hin as (d & <- & _). reflexivity. }
  assert (Hyes : forall p : PersistedJob -> bool,
             (forall r, Job.status r = Pending -> Job.type r = t -> p r = true) ->
             sql_count p (plainjob_jobs (snd (insertManyJobs jobs [] st)))
             = (sql_count p (plainjob_jobs st) + length ds)%nat).
  { intros p Hp. rewrite Hrows, sql_count_app. f_equal. unfold sql_count.
    rewrite filter_all; [exact Hlen|]. intros r Hr.
    destruct (Hall r Hr). auto. }
  assert (Hno : forall p : PersistedJob -> bool,
             (forall r, Job.status r = Pending -> Job.type r = t -> p r = false) ->
             sql_count p (plainjob_jobs (snd (insertManyJobs jobs [] st)))
             = sql_count p (plainjob_jobs st)).
  { intros p Hp. rewrite Hrows, sql_count_app. unfold sql_count at 2.
    rewrite filter_none; [simpl; lia|]. intros r Hr.
    destruct (Hall r Hr). auto. }
  split; [|split; [|split]].
  - unfold countJobs. cbn. unfold countJobsStmt.
    rewrite Hrows, length_app, Hlen. reflexivity.
  - intros Ht. unfold countJobs. cbn [opts_type opts_status].
    rewrite (truthy_nonempty t Ht). split.
    + apply Hyes. intros r _ E. now apply String.eqb_eq.
    + apply Hyes. intros r Hs E. apply andb_true_iff.
      split; [now apply is_status_true|now apply String.eqb_eq].
  - intros t' Ht' Hne. unfold countJobs. cbn [opts_type opts_status].
    rewrite (truthy_nonempty t' Ht'). apply Hno.
    intros r _ E. apply String.eqb_neq. congruence.
  - intros s Hs. unfold countJobs. cbn [opts_type opts_status].
    apply Hno. intros r E _. apply is_status_false. congruence.
Qed.

(** ** What a claim does to the store, and when it returns the job it marked *)

Lemma oldest_pending_exists t rows j :
  In j rows -> Job.status j = Pending -> Job.type j = t ->
  exists c, oldest_pending t rows = Some c.
Proof.
  intros Hin Hs Ht. unfold oldest_pending.
  apply (order_by_limit_1_some Job.createdAt _ j).
  apply filter_In. split; [assumption|].
  apply andb_true_iff. split; [now apply is_status_true|now apply String.eqb_eq].
Qed.

Lemma getJobByIdStmt_unique rows c :
  NoDup (map Job.id rows) -> In c rows -> getJobByIdStmt (Job.id c) rows = Some c.
Proof.
  intros Hnd Hin. destruct (getJobByIdStmt (Job.id c) rows) as [j|] eqn:E.
  - apply getJobByIdStmt_some in E as [Hj Hid]. f_equal.
    eapply unique_key_eq; eauto.
  - rewrite getJobByIdStmt_none in E. exfalso. exact (E c Hin eq_refl).
Qed.

(** An UPDATE by a unique id moves one row from the rows it used to count
    among to the rows its new version counts among. *)
Lemma sql_count_update_by_id (p : PersistedJob -> bool) set rows c :
  NoDup (map Job.id rows) -> In c rows ->
  (sql_count p (sql_update (fun j => (Job.id j =? Job.id c)%Z) set rows)
   + (if p c then 1 else 0)
   = sql_count p rows + (if p (set c) then 1 else 0))%nat.
Proof.
  unfold sql_count. induction rows as [|r rows IH]; intros Hnd Hin; [contradiction|].
  inversion Hnd as [|? ? Hnotin Hnd']; subst.
  destruct Hin as [->|Hin].
  - cbn [sql_update map filter]. rewrite Z.eqb_refl.
    fold (sql_update (fun j => Job.id j =? Job.id c) set rows).
    rewrite sql_update_none.
    + destruct (p c), (p (set c)); simpl; lia.
    + intros r Hr. apply Z.eqb_neq. intros E. apply Hnotin. rewrite <- E.
      now apply in_map.
  - cbn [sql_update map filter].
    fold (sql_update (fun j => Job.id j =? Job.id c) set rows).
    replace (Job.id r =? Job.id c) with false.
    + specialize (IH Hnd' Hin). destruct (p r); simpl; lia.
    + symmetry. apply Z.eqb_neq. intros E. apply Hnotin. rewrite E.
      now apply in_map.
Qed.

(** X9. Where ids are unique and a Pending job of type [t] is in the store,
    [getAndMarkJobAsProcessing t] changes exactly one row: a Pending job of
    type [t] than which no other is older becomes Processing, and every
    other id looks up as before.  The number of Pending jobs falls by one,
    the number of Processing jobs rises by one (counted for the type or
    over all types) and the number of jobs stays. *)
Theorem X9_claim_marks_the_oldest_pending_job
    (t : string) (st : Store) (j : PersistedJob) :
  unique_ids st ->
  In j (plainjob_jobs st) -> Job.status j = Pending -> Job.type j = t ->
  let st' := snd (getAndMarkJobAsProcessing t st) in
  exists c,
    In c (plainjob_jobs st) /\ Job.status c = Pending /\ Job.type c = t
    /\ (forall r, In r (plainjob_jobs st) -> Job.status r = Pending ->
          Job.type r = t -> Job.createdAt c <= Job.createdAt r)
    /\ getJobById (Job.id c) st' = Some (Job.set_status Processing c)
    /\ (forall i, i <> Job.id c -> getJobById i st' = getJobById i st)
    /\ (forall type : option string,
          (type = None \/ type = Some t) ->
          (countJobs (Some (mkCountOpts type (Some Pending))) st' + 1
           = countJobs (Some (mkCountOpts type (Some Pending))) st)%nat
          /\ (countJobs (Some (mkCountOpts type (Some Processing))) st'
              = countJobs (Some (mkCountOpts type (Some Processing))) st + 1)%nat)
    /\ countJobs None st' = countJobs None st.
Proof.
  intros Hnd Hin Hs Ht st'.
  destruct (oldest_pending_exists t _ j Hin Hs Ht) as [c Hc].
  exists c. destruct (oldest_pending_some _ _ _ Hc) as (Hcin & Hcs & Hct & Hleast).
  repeat (split; [assumption|]).
  assert (Hrows : plainjob_jobs st'
                  = sql_update (fun r => Job.id r =? Job.id c)
                      (Job.set_status Processing) (plainjob_jobs st)).
  { subst st'. rewrite getAndMarkJobAsProcessing_store. cbn [with_jobs plainjob_jobs].
    unfold getAndMarkJobAsProcessingStmt. now rewrite Hc. }
  assert (Hpending : is_status Pending c = true) by now apply is_status_true.
  assert (Hprocessing : is_status Processing c = false).
  { apply is_status_false. congruence. }
  assert (Htype : String.eqb (Job.type c) t = true) by now apply String.eqb_eq.
  pose proof (sql_count_update_by_id (is_status Pending)
                (Job.set_status Processing) _ c Hnd Hcin) as H1.
  pose proof (sql_count_update_by_id (is_status Processing)
                (Job.set_status Processing) _ c Hnd Hcin) as H2.
  pose proof (sql_count_update_by_id
                (fun r => is_status Pending r && String.eqb (Job.type r) t)
                (Job.set_status Processing) _ c Hnd Hcin) as H3.
  pose proof (sql_count_update_by_id
                (fun r => is_status Processing r && String.eqb (Job.type r) t)
                (Job.set_status Processing) _ c Hnd Hcin) as H4.
  cbn beta in H3, H4. rewrite <- Hrows in H1, H2, H3, H4.
  rewrite Hpending in H1, H3. rewrite Hprocessing in H2, H4.
  change (is_status Pending (Job.set_status Processing c)) with false in H1, H3.
  change (is_status Processing (Job.set_status Processing c)) with true in H2, H4.
  change (Job.type (Job.set_status Processing c)) with (Job.type c) in H3, H4.
  rewrite Htype in H3, H4. cbn [andb] in H3, H4. cbn iota in H1, H2, H3, H4.
  split; [|split; [|split]].
  - unfold getJobById. rewrite Hrows.
    rewrite (getJobByIdStmt_update (Job.id c) _ _ _ c) by
      (reflexivity || now apply getJobByIdStmt_unique).
    now rewrite Z.eqb_refl.
  - intros i Hi. unfold getJobById. rewrite Hrows.
    now apply getJobByIdStmt_update_other.
  - intros type [->| ->]; unfold countJobs; cbn [opts_type opts_status].
    + unfold countJobsByStatusStmt. lia.
    + destruct (truthy (Some t));
        unfold countJobsByStatusStmt, countJobsByTypeAndStatusStmt; lia.
  - change (countJobs None st') with (length (plainjob_jobs st')).
    rewrite Hrows. apply sql_update_length.
Qed.

(** X10. Where ids are unique, no job of type [t] is Processing and a Pending
    job of type [t] is in the store, [getAndMarkJobAsProcessing t] returns
    the job it has marked: a job of type [t] that was Pending, than which no
    other was older, now Processing.  Once that job is marked done or
    failed, again no job of type [t] is Processing, so a worker that
    finishes each job before it asks for the next is handed each job
    once. *)
Theorem X10_claim_returns_marked_job_when_none_is_processing
    (t : string) (st : Store) (j : PersistedJob) :
  unique_ids st ->
  (forall r, In r (plainjob_jobs st) -> Job.type r = t -> Job.status r <> Processing) ->
  In j (plainjob_jobs st) -> Job.status j = Pending -> Job.type j = t ->
  exists c,
    In c (plainjob_jobs st) /\ Job.status c = Pending /\ Job.type c = t
    /\ (forall r, In r (plainjob_jobs st) -> Job.status r = Pending ->
          Job.type r = t -> Job.createdAt c <= Job.createdAt r)
    /\ fst (getAndMarkJobAsProcessing t st)
       = Returned (Some (Job.set_status Processing c))
    /\ (forall (e : string) (now : Z) (r : PersistedJob),
          In r (plainjob_jobs (markJobAsDone (Job.id c)
                                 (snd (getAndMarkJobAsProcessing t st))))
          \/ In r (plainjob_jobs (markJobAsFailed (Job.id c) e now
                                    (snd (getAndMarkJobAsProcessing t st)))) ->
          Job.type r = t -> Job.status r <> Processing).
Proof.
  intros Hnd Hnone Hin Hs Ht.
  destruct (oldest_pending_exists t _ j Hin Hs Ht) as [c Hc].
  exists c. destruct (oldest_pending_some _ _ _ Hc) as (Hcin & Hcs & Hct & Hleast).
  repeat (split; [assumption|]).
  set (rows' := sql_update (fun r => Job.id r =? Job.id c)
                  (Job.set_status Processing) (plainjob_jobs st)).
  assert (Hstore : plainjob_jobs (snd (getAndMarkJobAsProcessing t st)) = rows').
  { rewrite getAndMarkJobAsProcessing_store. cbn [with_jobs plainjob_jobs].
    unfold getAndMarkJobAsProcessingStmt. now rewrite Hc. }
  split.
  - rewrite getAndMarkJobAsProcessing_result. f_equal.
    unfold getAndMarkJobAsProcessingStmt. rewrite Hc. fold rows'.
    assert (Hin' : In (Job.set_status Processing c)
                     (filter (fun x => is_status Processing x
                                       && String.eqb (Job.type x) t) rows')).
    { apply filter_In. split.
      - apply sql_update_In. exists c. split; [assumption|]. now rewrite Z.eqb_refl.
      - apply andb_true_iff. split; [reflexivity|now apply String.eqb_eq]. }
    unfold getUpdatedJobStmt.
    destruct (order_by_limit_1_some Job.createdAt _ _ Hin') as [m Hm].
    rewrite Hm. f_equal.
    apply order_by_limit_1_In, filter_In in Hm as (Hmin & Hm).
    apply andb_true_iff in Hm as [Hms Hmt].
    apply is_status_true in Hms. apply String.eqb_eq in Hmt.
    apply sql_update_In in Hmin as (r & Hr & ->).
    destruct (Job.id r =? Job.id c) eqn:E.
    + apply Z.eqb_eq in E. f_equal. eapply unique_key_eq; eauto.
    + exfalso. exact (Hnone r Hr Hmt Hms).
  - intros e now r Hr Hrt Hrs.
    assert (Hr' : exists r', In r' rows'
                    /\ (r = (if Job.id r' =? Job.id c
                             then Job.set_status Done r' else r')
                        \/ r = (if Job.id r' =? Job.id c
                                then Job.set_failed now e r' else r'))).
    { destruct Hr as [Hr|Hr];
        [unfold markJobAsDone in Hr|unfold markJobAsFailed in Hr];
        cbn [with_jobs plainjob_jobs] in Hr; rewrite Hstore in Hr;
        apply sql_update_In in Hr as (r' & Hr' & E); exists r'; auto. }
    destruct Hr' as (r' & Hr' & E).
    apply sql_update_In in Hr' as (r0 & Hr0 & ->).
    destruct (Job.id r0 =? Job.id c) eqn:E0.
    + cbn [Job.id Job.set_status] in E. rewrite E0 in E.
      destruct E as [->| ->]; discriminate.
    + rewrite E0 in E. assert (r = r0) as -> by (destruct E; assumption).
      exact (Hnone r0 Hr0 Hrt Hrs).
Qed.

(** ** The lease is measured from [createdAt] *)

(** X11. Where ids are unique and the job a claim marks was created before
    [now - timeout], a sweep [requeueTimedOutJobs timeout] at [now] leaves
    the very store it would have left had the claim not been made: the job
    is Pending again, however short a time ago it was claimed. *)
Theorem X11_sweep_undoes_claim_of_an_old_job
    (t : string) (timeout now : Z) (st : Store) (c : PersistedJob) :
  unique_ids st ->
  oldest_pending t (plainjob_jobs st) = Some c ->
  Job.createdAt c < now - timeout ->
  requeueTimedOutJobs timeout now (snd (getAndMarkJobAsProcessing t st))
  = requeueTimedOutJobs timeout now st
  /\ getJobById (Job.id c)
       (requeueTimedOutJobs timeout now (snd (getAndMarkJobAsProcessing t st)))
     = Some c.
Proof.
  intros Hnd Hc Hold.
  destruct (oldest_pending_some _ _ _ Hc) as (Hcin & Hcs & Hct & _).
  assert (E : requeueTimedOutJobs timeout now (snd (getAndMarkJobAsProcessing t st))
              = requeueTimedOutJobs timeout now st).
  { rewrite getAndMarkJobAsProcessing_store. unfold requeueTimedOutJobs, with_jobs.
    cbn [plainjob_jobs jobs_seq plainjob_scheduled_jobs scheduled_seq].
    f_equal. unfold getAndMarkJobAsProcessingStmt. rewrite Hc.
    unfold requeueTimedOutJobsStmt, sql_update. rewrite map_map.
    apply map_ext_in. intros r Hr.
    destruct (Job.id r =? Job.id c) eqn:Eid; [|reflexivity].
    apply Z.eqb_eq in Eid. assert (r = c) as -> by (eapply unique_key_eq; eauto).
    unfold is_status, created_before. cbn [Job.status Job.createdAt Job.set_status].
    rewrite Hcs. cbn [JobStatus_eqb andb].
    replace (Job.createdAt c <? now - timeout) with true
      by (symmetry; now apply Z.ltb_lt).
    destruct c; simpl in *; subst; reflexivity. }
  split; [exact E|]. rewrite E. unfold getJobById, requeueTimedOutJobs.
  cbn [with_jobs plainjob_jobs]. unfold requeueTimedOutJobsStmt.
  rewrite (getJobByIdStmt_update (Job.id c) _ _ _ c) by
    (reflexivity || now apply getJobByIdStmt_unique).
  replace (is_status Processing c) with false; [reflexivity|].
  symmetry. apply is_status_false. congruence.
Qed.

(** ** The maintenance sweeps *)

Lemma sql_delete_idempotent {Row : Type} (w : Row -> bool) rows :
  sql_delete w (sql_delete w rows) = sql_delete w rows.
Proof.
  unfold sql_delete. apply filter_all. intros r Hr.
  now apply filter_In in Hr.
Qed.

Lemma sql_delete_length {Row : Type} (w : Row -> bool) rows :
  length rows = (length (sql_delete w rows) + sql_count w rows)%nat.
Proof.
  unfold sql_delete, sql_count. induction rows as [|r rows IH]; [reflexivity|].
  simpl. destruct (w r); simpl; lia.
Qed.

Lemma requeueTimedOutJobsStmt_counts th rows :
  let w := fun j => is_status Processing j && created_before th j in
  sql_count (is_status Pending) (requeueTimedOutJobsStmt th rows)
  = (sql_count (is_status Pending) rows + sql_count w rows)%nat
  /\ (sql_count (is_status Processing) (requeueTimedOutJobsStmt th rows)
      + sql_count w rows
      = sql_count (is_status Processing) rows)%nat.
Proof.
  intros w. subst w. unfold requeueTimedOutJobsStmt, sql_update, sql_count.
  induction rows as [|r rows IH]; [split; reflexivity|].
  destruct IH as [IH1 IH2]. destruct r as [i ty da s c fa er].
  unfold is_status, created_before in *. cbn [map filter Job.status Job.createdAt].
  destruct s; cbn [JobStatus_eqb andb Job.status Job.set_status length];
    try (split; lia).
  destruct (c <? th); cbn [JobStatus_eqb andb Job.status Job.set_status length];
    split; lia.
Qed.

(** X6. After [requeueTimedOutJobs timeout] at [now] no job is Processing
    with [createdAt < now - timeout]; after [removeDoneJobs olderThan] no job
    is Done with [createdAt < now - olderThan]; after
    [removeFailedJobs olderThan] no job is Failed with
    [failedAt < now - olderThan].  Each sweep run a second time at the same
    clock reading leaves the store as the first run left it. *)
Theorem X6_sweeps_finish_their_work (d now : Z) (st : Store) :
  (forall j, In j (plainjob_jobs (requeueTimedOutJobs d now st)) ->
     ~ (Job.status j = Processing /\ Job.createdAt j < now - d))
  /\ (forall j, In j (plainjob_jobs (removeDoneJobs d now st)) ->
        ~ (Job.status j = Done /\ Job.createdAt j < now - d))
  /\ (forall j, In j (plainjob_jobs (removeFailedJobs d now st)) ->
        ~ (Job.status j = Failed
           /\ exists f, Job.failedAt j = Some f /\ f < now - d))
  /\ requeueTimedOutJobs d now (requeueTimedOutJobs d now st)
     = requeueTimedOutJobs d now st
  /\ removeDoneJobs d now (removeDoneJobs d now st) = removeDoneJobs d now st
  /\ removeFailedJobs d now (removeFailedJobs d now st) = removeFailedJobs d now st.
Proof.
  assert (Hreq : forall j, In j (plainjob_jobs (requeueTimedOutJobs d now st)) ->
             (is_status Processing j && created_before (now - d) j) = false).
  { intros j Hj. apply sql_update_In in Hj as (r & Hr & ->).
    destruct (is_status Processing r && created_before (now - d) r) eqn:E;
      [reflexivity|exact E]. }
  split; [|split; [|split; [|split; [|split]]]].
  - intros j Hj [Hs Hc]. specialize (Hreq j Hj).
    rewrite (proj2 (is_status_true _ _) Hs) in Hreq.
    rewrite (proj2 (created_before_true _ _) Hc) in Hreq. discriminate.
  - intros j Hj. now apply removeDoneJobs_In in Hj.
  - intros j Hj. now apply removeFailedJobs_In in Hj.
  - unfold requeueTimedOutJobs at 1. unfold with_jobs.
    cbn [jobs_seq plainjob_scheduled_jobs scheduled_seq requeueTimedOutJobs with_jobs].
    unfold requeueTimedOutJobs, with_jobs. f_equal.
    cbn [plainjob_jobs]. unfold requeueTimedOutJobsStmt at 1.
    apply sql_update_none. intros r Hr. apply (Hreq r). exact Hr.
  - unfold removeDoneJobs, with_jobs. cbn [plainjob_jobs jobs_seq
      plainjob_scheduled_jobs scheduled_seq]. f_equal. apply sql_delete_idempotent.
  - unfold removeFailedJobs, with_jobs. cbn [plainjob_jobs jobs_seq
      plainjob_scheduled_jobs scheduled_seq]. f_equal. apply sql_delete_idempotent.
Qed.

(** X12. The count each sweep reports is the change it made: the two
    retention sweeps shorten the jobs table by the count they report, and
    [requeueTimedOutJobs] raises the number of Pending jobs and lowers the
    number of Processing jobs by the count it reports, the number of jobs
    staying. *)
Theorem X12_sweeps_report_what_they_changed (d now : Z) (st : Store) :
  countJobs None st
  = (countJobs None (removeDoneJobs d now st) + removeDoneJobs_changes d now st)%nat
  /\ countJobs None st
     = (countJobs None (removeFailedJobs d now st)
        + removeFailedJobs_changes d now st)%nat
  /\ countJobs None (requeueTimedOutJobs d now st) = countJobs None st
  /\ countJobs (Some (mkCountOpts None (Some Pending))) (requeueTimedOutJobs d now st)
     = (countJobs (Some (mkCountOpts None (Some Pending))) st
        + requeueTimedOutJobs_changes d now st)%nat
  /\ (countJobs (Some (mkCountOpts None (Some Processing)))
        (requeueTimedOutJobs d now st)
      + requeueTimedOutJobs_changes d now st
      = countJobs (Some (mkCountOpts None (Some Processing))) st)%nat.
Proof.
  destruct (requeueTimedOutJobsStmt_counts (now - d) (plainjob_jobs st)) as [H1 H2].
  split; [|split; [|split; [|split]]].
  - apply sql_delete_length.
  - apply sql_delete_length.
  - apply sql_update_length.
  - exact H1.
  - exact H2.
Qed.

(** X13. One run of the maintenance timer, with the effective options
    (an option left out or given as 0 takes its default: 30 minutes, 7 days,
    30 days): a Pending job stays as it is; a Processing job stays as it is
    unless it was created before [now1 - timeout], and then it is in the
    store as Pending; a Done job stays exactly when it was not created
    before [now2 - removeDoneJobsOlderThan]. *)
Theorem X13_maintenance_run
    (opts : QueueOptions) (now1 now2 now3 : Z) (st : Store) (j : PersistedJob) :
  In j (plainjob_jobs st) ->
  let st' := maintenance opts now1 now2 now3 st in
  (Job.status j = Pending -> In j (plainjob_jobs st'))
  /\ (Job.status j = Processing ->
      (now1 - jobProcessingTimeout opts <= Job.createdAt j -> In j (plainjob_jobs st'))
      /\ (Job.createdAt j < now1 - jobProcessingTimeout opts ->
          In (Job.set_status Pending j) (plainjob_jobs st')))
  /\ (Job.status j = Done ->
      (In j (plainjob_jobs st')
       <-> now2 - removeDoneJobsOlderThan opts <= Job.createdAt j))
  /\ (Options.timeout opts = None \/ Options.timeout opts = Some 0 ->
      jobProcessingTimeout opts = 1800000)
  /\ (Options.removeDoneJobsOlderThan opts = None
      \/ Options.removeDoneJobsOlderThan opts = Some 0 ->
      removeDoneJobsOlderThan opts = 604800000)
  /\ (Options.removeFailedJobsOlderThan opts = None
      \/ Options.removeFailedJobsOlderThan opts = Some 0 ->
      removeFailedJobsOlderThan opts = 2592000000).
Proof.
  intros Hin st'. subst st'. unfold maintenance.
  set (T := jobProcessingTimeout opts). set (D := removeDoneJobsOlderThan opts).
  set (F := removeFailedJobsOlderThan opts).
  assert (Hkeep : forall r, In r (plainjob_jobs (requeueTimedOutJobs T now1 st)) ->
             Job.status r = Pending \/ Job.status r = Processing ->
             In r (plainjob_jobs (removeFailedJobs F now3
                                    (removeDoneJobs D now2
                                       (requeueTimedOutJobs T now1 st))))).
  { intros r Hr Hs. apply removeFailedJobs_In. split.
    - apply removeDoneJobs_In. split; [assumption|].
      intros [H _]. destruct Hs; congruence.
    - intros [H _]. destruct Hs; congruence. }
  assert (Hw : forall r,
             (is_status Processing r && created_before (now1 - T) r) = true
             <-> Job.status r = Processing /\ Job.createdAt r < now1 - T).
  { intros r. now rewrite andb_true_iff, is_status_true, created_before_true. }
  assert (Hsame : ~ (Job.status j = Processing /\ Job.createdAt j < now1 - T) ->
             In j (plainjob_jobs (requeueTimedOutJobs T now1 st))).
  { intros Hn. apply sql_update_In. exists j. split; [assumption|].
    destruct (is_status Processing j && created_before (now1 - T) j) eqn:E;
      [|reflexivity].
    apply Hw in E. contradiction. }
  split; [|split; [|split; [|split; [|split]]]].
  - intros Hs. apply Hkeep; [|auto]. apply Hsame. intros [H _]. congruence.
  - intros Hs. split.
    + intros Hc. apply Hkeep; [|auto]. apply Hsame. intros [_ H]. lia.
    + intros Hc. apply Hkeep; [|left; reflexivity].
      apply sql_update_In. exists j. split; [assumption|].
      now rewrite (proj2 (Hw j) (conj Hs Hc)).
  - intros Hs. rewrite removeFailedJobs_In, removeDoneJobs_In. split.
    + intros [[_ Hn] _].
      destruct (Z_lt_le_dec (Job.createdAt j) (now2 - D)) as [Hlt|Hle];
        [|exact Hle].
      exfalso. apply Hn. auto.
    + intros Hle. split; [split|].
      * apply Hsame. intros [H _]. congruence.
      * intros [_ H]. lia.
      * intros [H _]. congruence.
  - unfold T, jobProcessingTimeout, or_default. intros [->| ->]; reflexivity.
  - unfold D, removeDoneJobsOlderThan, or_default. intros [->| ->]; reflexivity.
  - unfold F, removeFailedJobsOlderThan, or_default. intros [->| ->]; reflexivity.
Qed.

(** ** Handing out schedules *)

Lemma getNextScheduledJobStmt_some now rows job :
  getNextScheduledJobStmt now rows = Some job ->
  In job rows /\ Scheduled.status job = Scheduled.Idle /\ Scheduled.nextRun job <= now
  /\ (forall r, In r rows -> Scheduled.status r = Scheduled.Idle ->
        Scheduled.nextRun r <= now -> Scheduled.nextRun job <= Scheduled.nextRun r).
Proof.
  unfold getNextScheduledJobStmt. intros H.
  pose proof (order_by_limit_1_In _ _ _ H) as Hin.
  apply filter_In in Hin as (Hin & Hc). apply index_scan_In in Hin.
  apply andb_true_iff in Hc as [Hs Hd].
  apply Z.leb_le in Hd.
  split; [assumption|]. split; [now destruct (Scheduled.status job)|].
  split; [assumption|].
  intros r Hr Hrs Hrd. apply (order_by_limit_1_least _ _ _ H).
  apply filter_In. split; [now apply index_scan_In|].
  rewrite Hrs. simpl. now apply Z.leb_le.
Qed.

Lemma getNextScheduledJobStmt_none now rows :
  getNextScheduledJobStmt now rows = None ->
  forall r, In r rows -> Scheduled.status r = Scheduled.Idle -> now < Scheduled.nextRun r.
Proof.
  unfold getNextScheduledJobStmt. intros H r Hr Hs.
  destruct (Z_lt_le_dec now (Scheduled.nextRun r)) as [Hlt|Hle]; [exact Hlt|].
  destruct (order_by_limit_1_some Scheduled.nextRun
              (filter (fun j => Scheduled.status_eqb (Scheduled.status j) Scheduled.Idle
                                && (Scheduled.nextRun j <=? now))
                 (index_scan idx_scheduled_jobs_status_type_next_run rows)) r)
    as [m Hm]; [|congruence].
  apply filter_In. split; [now apply index_scan_In|].
  rewrite Hs. simpl. now apply Z.leb_le.
Qed.

Lemma getAndMarkScheduledJobAsProcessing_cases now st :
  (getNextScheduledJobStmt now (plainjob_scheduled_jobs st) = None
   /\ getAndMarkScheduledJobAsProcessing now st = (Returned None, st))
  \/ (exists row,
        getNextScheduledJobStmt now (plainjob_scheduled_jobs st) = Some row
        /\ getAndMarkScheduledJobAsProcessing now st
           = (Returned (Some (Scheduled.set_status_nextRun Scheduled.Processing
                                (Scheduled.nextRun row) row)),
              with_scheduled
                (updateScheduledJobStatusStmt Scheduled.Processing
                   (Scheduled.nextRun row) (Scheduled.id row)
                   (plainjob_scheduled_jobs st)) st)).
Proof.
  unfold getAndMarkScheduledJobAsProcessing, transaction.
  destruct (getNextScheduledJobStmt now (plainjob_scheduled_jobs st)) as [row|].
  - right. exists row. auto.
  - left. auto.
Qed.

(** X14. [getAndMarkScheduledJobAsProcessing] returns none, and leaves the
    store as it is, exactly when no Idle schedule has [nextRun <= now].  A
    schedule it returns was Idle and due, no due Idle schedule had an
    earlier [nextRun], and it is returned as Processing with its [nextRun]
    kept; the call made again, at any clock reading, does not return a
    schedule of that id. *)
Theorem X14_schedule_is_handed_out_once (now : Z) (st : Store) :
  let r := getAndMarkScheduledJobAsProcessing now st in
  (fst r = Returned None
   <-> (forall s, In s (plainjob_scheduled_jobs st) ->
          Scheduled.status s = Scheduled.Idle -> now < Scheduled.nextRun s))
  /\ (fst r = Returned None -> snd r = st)
  /\ (forall job, fst r = Returned (Some job) ->
        Scheduled.status job = Scheduled.Processing
        /\ Scheduled.nextRun job <= now
        /\ In (Scheduled.set_status_nextRun Scheduled.Idle (Scheduled.nextRun job) job)
              (plainjob_scheduled_jobs st)
        /\ (forall s, In s (plainjob_scheduled_jobs st) ->
              Scheduled.status s = Scheduled.Idle -> Scheduled.nextRun s <= now ->
              Scheduled.nextRun job <= Scheduled.nextRun s)
        /\ (forall now' job',
              fst (getAndMarkScheduledJobAsProcessing now' (snd r))
              = Returned (Some job') ->
              Scheduled.id job' <> Scheduled.id job)).
Proof.
  intros r. subst r.
  destruct (getAndMarkScheduledJobAsProcessing_cases now st)
    as [[Hnone ->]|(row & Hrow & ->)]; cbn [fst snd].
  - split; [|split].
    + split; [intros _; now apply getNextScheduledJobStmt_none|reflexivity].
    + reflexivity.
    + intros job H. discriminate.
  - destruct (getNextScheduledJobStmt_some _ _ _ Hrow) as (Hin & Hs & Hd & Hleast).
    split; [|split].
    + split; [discriminate|]. intros H. specialize (H row Hin Hs). lia.
    + discriminate.
    + intros job H. inversion H; subst job; clear H.
      split; [reflexivity|]. split; [exact Hd|]. split.
      { match goal with |- In ?x _ => replace x with row end; [assumption|].
        destruct row; simpl in *; subst; reflexivity. }
      split; [exact Hleast|].
      intros now' job' H'.
      destruct (getAndMarkScheduledJobAsProcessing_cases now'
                  (with_scheduled
                     (updateScheduledJobStatusStmt Scheduled.Processing
                        (Scheduled.nextRun row) (Scheduled.id row)
                        (plainjob_scheduled_jobs st)) st))
        as [[_ E]|(row' & Hrow' & E)]; rewrite E in H'; cbn [fst] in H';
        [discriminate|].
      inversion H'; subst job'; clear H' E. cbn [Scheduled.id Scheduled.set_status_nextRun].
      cbn [with_scheduled plainjob_scheduled_jobs] in Hrow'.
      apply getNextScheduledJobStmt_some in Hrow' as (Hin' & Hs' & _).
      apply sql_update_In in Hin' as (r0 & Hr0 & ->).
      destruct (Scheduled.id r0 =? Scheduled.id row) eqn:E0.
      * discriminate.
      * now apply Z.eqb_neq.
Qed.

Lemma getScheduledJobByIdStmt_some i rows j :
  getScheduledJobByIdStmt i rows = Some j -> In j rows /\ Scheduled.id j = i.
Proof.
  unfold getScheduledJobByIdStmt, sql_get. intros H. apply find_some in H as [Hin E].
  apply Z.eqb_eq in E. auto.
Qed.

(** X15. [markScheduledJobAsIdle id nextRun] leaves the schedule of that id
    Idle with the given [nextRun], its type, cron expression and createdAt
    kept.  A call of [getAndMarkScheduledJobAsProcessing] before [nextRun]
    does not return it; one at or after [nextRun] does not return none. *)
Theorem X15_idle_schedule_waits_for_nextRun
    (i n : Z) (st : Store) (j : PersistedScheduledJob) :
  getScheduledJobById i st = Some j ->
  let st' := markScheduledJobAsIdle i n st in
  getScheduledJobById i st'
  = Some (Scheduled.mk i (Scheduled.type j) Scheduled.Idle (Scheduled.createdAt j)
            (Scheduled.cronExpression j) n)
  /\ (forall now job,
        now < n ->
        fst (getAndMarkScheduledJobAsProcessing now st') = Returned (Some job) ->
        Scheduled.id job <> i)
  /\ (forall now,
        n <= now ->
        fst (getAndMarkScheduledJobAsProcessing now st') <> Returned None).
Proof.
  intros Hj st'. destruct (getScheduledJobByIdStmt_some _ _ _ Hj) as [Hin Hid].
  assert (Hget : getScheduledJobById i st'
                 = Some (Scheduled.set_status_nextRun Scheduled.Idle n j)).
  { unfold getScheduledJobById, getScheduledJobByIdStmt in *. subst st'.
    unfold markScheduledJobAsIdle, updateScheduledJobStatusStmt.
    cbn [with_scheduled plainjob_scheduled_jobs].
    rewrite sql_get_update by reflexivity. rewrite Hj. simpl.
    now rewrite Hid, Z.eqb_refl. }
  split; [|split].
  - rewrite Hget. unfold Scheduled.set_status_nextRun. now rewrite Hid.
  - intros now job Hnow H.
    destruct (getAndMarkScheduledJobAsProcessing_cases now st')
      as [[_ E]|(row & Hrow & E)]; rewrite E in H; cbn [fst] in H; [discriminate|].
    inversion H; subst job; clear H E. cbn [Scheduled.id Scheduled.set_status_nextRun].
    apply getNextScheduledJobStmt_some in Hrow as (Hrin & _ & Hdue & _).
    subst st'. unfold markScheduledJobAsIdle, updateScheduledJobStatusStmt in Hrin.
    cbn [with_scheduled plainjob_scheduled_jobs] in Hrin.
    apply sql_update_In in Hrin as (r0 & Hr0 & ->).
    destruct (Scheduled.id r0 =? i) eqn:E0.
    + cbn [Scheduled.nextRun Scheduled.set_status_nextRun] in Hdue. lia.
    + now apply Z.eqb_neq.
  - intros now Hnow H.
    destruct (getAndMarkScheduledJobAsProcessing_cases now st')
      as [[Hnone _]|(row & _ & E)]; [|rewrite E in H; discriminate].
    destruct (getScheduledJobByIdStmt_some _ _ _ Hget) as [Hin' _].
    pose proof (getNextScheduledJobStmt_none _ _ Hnone _ Hin' eq_refl) as Hlt.
    cbn [Scheduled.nextRun Scheduled.set_status_nextRun] in Hlt. lia.
Qed.

(** X16. A schedule just created is due at once: when no Idle schedule of
    the store was due at [now >= 0], the call of
    [getAndMarkScheduledJobAsProcessing] that follows [schedule t cron]
    returns the new schedule, Processing, with [nextRun] 0. *)
Theorem X16_new_schedule_is_due_at_once
    (t cron : string) (now0 now : Z) (st : Store) :
  parseExpression cron = Returned tt ->
  (forall s, In s (plainjob_scheduled_jobs st) -> Scheduled.type s <> t) ->
  (forall s, In s (plainjob_scheduled_jobs st) ->
     Scheduled.status s = Scheduled.Idle -> now < Scheduled.nextRun s) ->
  0 <= now ->
  exists id,
    fst (schedule parseExpression t cron now0 st) = Returned id
    /\ fst (getAndMarkScheduledJobAsProcessing now
              (snd (schedule parseExpression t cron now0 st)))
       = Returned (Some (Scheduled.mk id t Scheduled.Processing now0 cron 0)).
Proof.
  intros Hparse Hnone Hnotdue Hnow.
  set (id := next_rowid Scheduled.id (scheduled_seq st) (plainjob_scheduled_jobs st)).
  assert (E : schedule parseExpression t cron now0 st
              = (Returned id,
                 mkStore (plainjob_jobs st) (jobs_seq st)
                   (plainjob_scheduled_jobs st
                      ++ [Scheduled.mk id t Scheduled.Idle now0 cron 0]) id)).
  { unfold schedule. rewrite Hparse.
    apply getScheduledJobByTypeStmt_none in Hnone. rewrite Hnone. reflexivity. }
  exists id. rewrite E. cbn [fst snd]. split; [reflexivity|].
  unfold getAndMarkScheduledJobAsProcessing, transaction.
  cbn [plainjob_scheduled_jobs].
  assert (Hnext : getNextScheduledJobStmt now
                    (plainjob_scheduled_jobs st
                       ++ [Scheduled.mk id t Scheduled.Idle now0 cron 0])
                  = Some (Scheduled.mk id t Scheduled.Idle now0 cron 0)).
  { unfold getNextScheduledJobStmt.
    pose proof (filter_Permutation
                  (fun j => Scheduled.status_eqb (Scheduled.status j) Scheduled.Idle
                            && (Scheduled.nextRun j <=? now)) _ _
                  (index_scan_Permutation idx_scheduled_jobs_status_type_next_run
                     (plainjob_scheduled_jobs st
                        ++ [Scheduled.mk id t Scheduled.Idle now0 cron 0]))) as Hperm.
    assert (Hf : filter
                   (fun j => Scheduled.status_eqb (Scheduled.status j) Scheduled.Idle
                             && (Scheduled.nextRun j <=? now))
                   (plainjob_scheduled_jobs st
                      ++ [Scheduled.mk id t Scheduled.Idle now0 cron 0])
                 = [Scheduled.mk id t Scheduled.Idle now0 cron 0]).
    { rewrite filter_app, filter_none.
      - cbn [app filter Scheduled.status Scheduled.nextRun Scheduled.status_eqb andb].
        replace (0 <=? now) with true by (symmetry; now apply Z.leb_le).
        reflexivity.
      - intros s Hs. destruct (Scheduled.status s) eqn:Es; [|reflexivity].
        specialize (Hnotdue s Hs Es). simpl. apply Z.leb_gt. exact Hnotdue. }
    rewrite Hf in Hperm. symmetry in Hperm.
    apply Permutation_length_1_inv in Hperm. rewrite Hperm. reflexivity. }
  rewrite Hnext. reflexivity.
Qed.

(** X17. [schedule t cron] on a store that holds a schedule of type [t]
    returns the id of that schedule and rewrites its cron expression only:
    status and [nextRun] stay, so a schedule that is Processing stays
    Processing, and no row is added. *)
Theorem X17_reschedule_keeps_status_and_nextRun
    (t cron : string) (now : Z) (st : Store) (found : PersistedScheduledJob) :
  parseExpression cron = Returned tt ->
  getScheduledJobByTypeStmt t (plainjob_scheduled_jobs st) = Some found ->
  let r := schedule parseExpression t cron now st in
  fst r = Returned (Scheduled.id found)
  /\ getScheduledJobByTypeStmt t (plainjob_scheduled_jobs (snd r))
     = Some (Scheduled.mk (Scheduled.id found) t (Scheduled.status found)
               (Scheduled.createdAt found) cron (Scheduled.nextRun found))
  /\ length (plainjob_scheduled_jobs (snd r)) = length (plainjob_scheduled_jobs st)
  /\ plainjob_jobs (snd r) = plainjob_jobs st.
Proof.
  intros Hparse Hfound r. subst r. unfold schedule. rewrite Hparse, Hfound.
  cbn [fst snd with_scheduled plainjob_scheduled_jobs plainjob_jobs].
  assert (Ht : Scheduled.type found = t).
  { unfold getScheduledJobByTypeStmt, sql_get in Hfound.
    apply find_some in Hfound as [_ E]. now apply String.eqb_eq in E. }
  split; [reflexivity|]. split; [|split; [|reflexivity]].
  - unfold getScheduledJobByTypeStmt, updateScheduledJobCronExpressionStmt in *.
    rewrite sql_get_update by reflexivity. rewrite Hfound. simpl.
    rewrite Z.eqb_refl. unfold Scheduled.set_cronExpression. now rewrite Ht.
  - apply sql_update_length.
Qed.

End MoreQueueFacts.

(** ** [getJobTypes] and [getScheduledJobs] *)

Lemma sql_distinct_In values x : In x (sql_distinct values) <-> In x values.
Proof.
  induction values as [|v values IH]; simpl; [reflexivity|].
  rewrite filter_In, IH, negb_true_iff, String.eqb_neq.
  destruct (string_dec v x) as [->|N]; intuition congruence.
Qed.

Lemma sql_distinct_NoDup values : NoDup (sql_distinct values).
Proof.
  induction values as [|v values IH]; simpl; constructor.
  - intros H. apply filter_In in H as [_ H].
    now rewrite String.eqb_refl in H.
  - now apply NoDup_filter.
Qed.

(** X18. [getJobTypes] lists every type that some job of the store has, and
    no other, each once.  For a non-empty type, being listed is the same as
    [countJobs {type: t}] not being 0. *)
Theorem X18_getJobTypes_lists_each_type_once (st : Store) :
  NoDup (getJobTypes st)
  /\ (forall t, In t (getJobTypes st)
        <-> exists j, In j (plainjob_jobs st) /\ Job.type j = t)
  /\ (forall t, t <> ""%string ->
        (In t (getJobTypes st)
         <-> countJobs (Some (mkCountOpts (Some t) None)) st <> 0%nat)).
Proof.
  assert (Hin : forall t, In t (getJobTypes st)
                  <-> exists j, In j (plainjob_jobs st) /\ Job.type j = t).
  { intros t. unfold getJobTypes, getJobTypesStmt.
    rewrite sql_distinct_In, in_map_iff.
    split; intros (j & H1 & H2); exists j; [split; [|exact H1]|split; [exact H2|]];
      now apply (index_scan_In idx_jobs_status_type_created_at). }
  split; [apply sql_distinct_NoDup|]. split; [exact Hin|].
  intros t Ht. rewrite Hin. unfold countJobs. cbn [opts_type opts_status].
  rewrite (truthy_nonempty t Ht). unfold countJobsByTypeStmt, sql_count. split.
  - intros (j & Hj & E) H. apply length_zero_iff_nil in H.
    assert (In j (filter (fun x => String.eqb (Job.type x) t) (plainjob_jobs st))) as Hf.
    { apply filter_In. split; [assumption|now apply String.eqb_eq]. }
    rewrite H in Hf. contradiction.
  - intros H.
    destruct (filter (fun x => String.eqb (Job.type x) t) (plainjob_jobs st))
      as [|j rest] eqn:E; [contradiction|].
    assert (In j (filter (fun x => String.eqb (Job.type x) t) (plainjob_jobs st))) as Hf
      by (rewrite E; now left).
    apply filter_In in Hf as [Hj Et]. exists j. split; [assumption|].
    now apply String.eqb_eq.
Qed.

Lemma insert_by_Permutation {Row : Type} (key : Row -> Z) r sorted :
  Permutation (insert_by key r sorted) (r :: sorted).
Proof.
  induction sorted as [|s rest IH]; simpl; [reflexivity|].
  destruct (key s <? key r); [|reflexivity].
  rewrite IH. apply perm_swap.
Qed.

Lemma order_by_Permutation {Row : Type} (key : Row -> Z) rows :
  Permutation (order_by key rows) rows.
Proof.
  unfold order_by. induction rows as [|r rows IH]; simpl; [reflexivity|].
  rewrite insert_by_Permutation. now constructor.
Qed.

Lemma insert_by_sorted {Row : Type} (key : Row -> Z) r sorted :
  StronglySorted (fun a b => key a <= key b) sorted ->
  StronglySorted (fun a b => key a <= key b) (insert_by key r sorted).
Proof.
  induction sorted as [|s rest IH]; simpl; intros Hs.
  - repeat constructor.
  - inversion Hs as [|? ? Hs' Hall]; subst.
    destruct (key s <? key r) eqn:E.
    + apply Z.ltb_lt in E. constructor; [now apply IH|].
      rewrite Forall_forall in *. intros x Hx.
      apply (Permutation_in _ (insert_by_Permutation key r rest)) in Hx.
      destruct Hx as [<-|Hx]; [lia|auto].
    + apply Z.ltb_ge in E. constructor; [assumption|].
      constructor; [assumption|].
      rewrite Forall_forall in *. intros x Hx. specialize (Hall x Hx). lia.
Qed.

Lemma order_by_sorted {Row : Type} (key : Row -> Z) rows :
  StronglySorted (fun a b => key a <= key b) (order_by key rows).
Proof.
  unfold order_by. induction rows as [|r rows IH]; simpl; [constructor|].
  now apply insert_by_sorted.
Qed.

(** The row [ORDER BY key LIMIT 1] gives is the first row of [ORDER BY key]. *)
Lemma order_by_limit_1_is_first {Row : Type} (key : Row -> Z) rows :
  order_by_limit_1 key rows = hd_error (order_by key rows).
Proof.
  unfold order_by. induction rows as [|r rows IH]; simpl; [reflexivity|].
  rewrite IH. destruct (fold_right (insert_by key) [] rows) as [|s rest]; simpl;
    [reflexivity|].
  destruct (key s <? key r); reflexivity.
Qed.

Lemma order_by_of_sorted {Row : Type} (key : Row -> Z) rows :
  StronglySorted (fun a b => key a <= key b) rows -> order_by key rows = rows.
Proof.
  unfold order_by. induction rows as [|r rows IH]; simpl; intros Hs; [reflexivity|].
  inversion Hs as [|? ? Hs' Hall]; subst. rewrite (IH Hs').
  destruct rows as [|s rest]; simpl; [reflexivity|].
  inversion Hall as [|? ? Hle _]; subst.
  replace (key s <? key r) with false; [reflexivity|].
  symmetry. apply Z.ltb_ge. exact Hle.
Qed.

(** X19. [getScheduledJobs] returns the schedules of the store, each row as
    often as the table holds it, in ascending order of [createdAt]; where
    the table itself is in that order (schedules created under a clock that
    does not run backwards) it returns the rows in table order. *)
Theorem X19_getScheduledJobs_sorted_by_createdAt (st : Store) :
  Permutation (getScheduledJobs st) (plainjob_scheduled_jobs st)
  /\ StronglySorted
       (fun a b => Scheduled.createdAt a <= Scheduled.createdAt b)
       (getScheduledJobs st)
  /\ length (getScheduledJobs st) = length (plainjob_scheduled_jobs st)
  /\ (StronglySorted
        (fun a b => Scheduled.createdAt a <= Scheduled.createdAt b)
        (plainjob_scheduled_jobs st) ->
      getScheduledJobs st = plainjob_scheduled_jobs st).
Proof.
  unfold getScheduledJobs, getScheduledJobsStmt.
  split; [apply order_by_Permutation|]. split; [apply order_by_sorted|].
  split; [apply Permutation_length, order_by_Permutation|].
  apply order_by_of_sorted.
Qed.

(** ** The further properties on the example queue *)

Lemma three_jobs_unique_ids : unique_ids three_jobs.
Proof. repeat constructor; simpl; intuition discriminate. Qed.

Lemma X4_mark_missing_job_is_noop_witness :
  markJobAsDone 7 three_jobs = three_jobs
  /\ markJobAsFailed 7 "boom" 9 three_jobs = three_jobs.
Proof.
  apply (X4_mark_missing_job_is_noop 7 "boom" 9 three_jobs). reflexivity.
Defined.

Lemma X5_mark_then_getJobById_witness :
  getJobById 2 (markJobAsFailed 2 "boom" 9 three_jobs)
  = Some (Job.mk 2 "t" "B" Failed 2 (Some 9) (Some "boom"%string))
  /\ getJobById 2 (markJobAsDone 2 three_jobs)
     = Some (Job.mk 2 "t" "B" Done 2 None None).
Proof.
  destruct (X5_mark_then_getJobById 2 "boom" 9 three_jobs
              (Job.mk 2 "t" "B" Pending 2 None None) eq_refl) as (H1 & H2 & _).
  split; [exact H1|exact H2].
Defined.

Lemma X9_claim_marks_the_oldest_pending_job_witness :
  exists c,
    In c (plainjob_jobs three_jobs)
    /\ getJobById (Job.id c) (snd (getAndMarkJobAsProcessing "t" three_jobs))
       = Some (Job.set_status Processing c)
    /\ (countJobs (Some (mkCountOpts (Some "t"%string) (Some Pending)))
          (snd (getAndMarkJobAsProcessing "t" three_jobs)) + 1
        = countJobs (Some (mkCountOpts (Some "t"%string) (Some Pending))) three_jobs)%nat.
Proof.
  destruct (X9_claim_marks_the_oldest_pending_job "t" three_jobs
              (Job.mk 2 "t" "B" Pending 2 None None)
              three_jobs_unique_ids (or_intror (or_introl eq_refl)) eq_refl eq_refl)
    as (c & Hin & _ & _ & _ & Hget & _ & Hcount & _).
  exists c. split; [exact Hin|]. split; [exact Hget|].
  exact (proj1 (Hcount (Some "t"%string) (or_intror eq_refl))).
Defined.

Lemma X10_claim_returns_marked_job_when_none_is_processing_witness :
  exists c,
    In c (plainjob_jobs three_jobs)
    /\ fst (getAndMarkJobAsProcessing "t" three_jobs)
       = Returned (Some (Job.set_status Processing c)).
Proof.
  destruct (X10_claim_returns_marked_job_when_none_is_processing "t" three_jobs
              (Job.mk 2 "t" "B" Pending 2 None None) three_jobs_unique_ids)
    as (c & Hin & _ & _ & _ & Hret & _).
  - intros r [<-|[<-|[<-|[]]]] _; discriminate.
  - right. left. reflexivity.
  - reflexivity.
  - reflexivity.
  - exists c. split; [exact Hin|exact Hret].
Defined.

Lemma X11_sweep_undoes_claim_of_an_old_job_witness :
  requeueTimedOutJobs 10 100 (snd (getAndMarkJobAsProcessing "t" three_jobs))
  = requeueTimedOutJobs 10 100 three_jobs.
Proof.
  apply (X11_sweep_undoes_claim_of_an_old_job "t" 10 100 three_jobs
           (Job.mk 1 "t" "A" Pending 1 None None) three_jobs_unique_ids).
  - reflexivity.
  - reflexivity.
Defined.

Lemma X13_maintenance_run_witness :
  In (Job.mk 1 "t" "A" Pending 1 None None)
     (plainjob_jobs
        (maintenance (Options.mk (Some 10) None (Some 0) None) 100 100 100 stuck_store))
  /\ removeDoneJobsOlderThan (Options.mk (Some 10) None (Some 0) None) = 604800000.
Proof.
  destruct (X13_maintenance_run (Options.mk (Some 10) None (Some 0) None) 100 100 100
              stuck_store (Job.mk 1 "t" "A" Processing 1 None None)
              (or_introl eq_refl))
    as (_ & Hprocessing & _ & _ & Hdone & _).
  split.
  - apply (proj2 (Hprocessing eq_refl)). reflexivity.
  - apply Hdone. right. reflexivity.
Defined.

Lemma X15_idle_schedule_waits_for_nextRun_witness :
  getScheduledJobById 1 (markScheduledJobAsIdle 1 60 one_schedule)
  = Some (Scheduled.mk 1 "report" Scheduled.Idle 5 "0 * * * *" 60)
  /\ fst (getAndMarkScheduledJobAsProcessing 60 (markScheduledJobAsIdle 1 60 one_schedule))
     <> Returned None.
Proof.
  destruct (X15_idle_schedule_waits_for_nextRun 1 60 one_schedule
              (Scheduled.mk 1 "report" Scheduled.Idle 5 "0 * * * *" 0) eq_refl)
    as (Hget & _ & Hdue).
  split; [exact Hget|]. apply Hdue. reflexivity.
Defined.

Lemma X16_new_schedule_is_due_at_once_witness :
  exists id,
    fst (schedule example_parseExpression "report" "0 * * * *" 5 empty_store)
    = Returned id
    /\ fst (getAndMarkScheduledJobAsProcessing 6
              (snd (schedule example_parseExpression "report" "0 * * * *" 5 empty_store)))
       = Returned (Some (Scheduled.mk id "report" Scheduled.Processing 5 "0 * * * *" 0)).
Proof.
  apply (X16_new_schedule_is_due_at_once example_parseExpression
           "report" "0 * * * *" 5 6 empty_store).
  - reflexivity.
  - intros s [].
  - intros s [].
  - discriminate.
Defined.

Lemma X17_reschedule_keeps_status_and_nextRun_witness :
  let claimed := snd (getAndMarkScheduledJobAsProcessing 6 one_schedule) in
  let r := schedule example_parseExpression "report" "*/30 * * * *" 7 claimed in
  fst r = Returned 1
  /\ getScheduledJobByTypeStmt "report" (plainjob_scheduled_jobs (snd r))
     = Some (Scheduled.mk 1 "report" Scheduled.Processing 5 "*/30 * * * *" 0).
Proof.
  intros claimed r.
  destruct (X17_reschedule_keeps_status_and_nextRun example_parseExpression
              "report" "*/30 * * * *" 7 claimed
              (Scheduled.mk 1 "report" Scheduled.Processing 5 "0 * * * *" 0)
              eq_refl eq_refl)
    as (H1 & H2 & _).
  split; [exact H1|exact H2].
Defined.

(** ** Done and Failed are final *)

Section FinalStatuses.
Variable Data : Type.
Variable serializer : Data -> string.
Variable parseExpression : string -> outcome unit.

(** What the calls keep once a job of id [i] is Done or Failed. *)
Lemma call_keeps_final_status (i : Z) now (c : Call Data) st :
  unique_ids st ->
  i <= jobs_seq st ->
  (forall r, In r (plainjob_jobs st) -> Job.id r = i ->
     Job.status r = Done \/ Job.status r = Failed) ->
  forall r, In r (plainjob_jobs (call serializer parseExpression now c st)) ->
    Job.id r = i -> Job.status r = Done \/ Job.status r = Failed.
Proof.
  intros Hnd Hi Hfinal.
  assert (Hupd : forall w set,
             (forall r, Job.id (set r) = Job.id r) ->
             (forall r, In r (plainjob_jobs st) -> Job.id r = i -> w r = true ->
                Job.status (set r) = Done \/ Job.status (set r) = Failed) ->
             forall r, In r (sql_update w set (plainjob_jobs st)) ->
               Job.id r = i -> Job.status r = Done \/ Job.status r = Failed).
  { intros w set Hid Hset r' Hr' E. apply sql_update_In in Hr' as (r & Hr & ->).
    destruct (w r) eqn:W.
    - rewrite Hid in E. now apply Hset.
    - now apply Hfinal. }
  destruct c; cbn [call].
  - intros r Hr E. unfold add, insertJobStmt in Hr. cbn [snd plainjob_jobs] in Hr.
    apply in_app_or in Hr as [Hr|[<-|[]]]; [now apply Hfinal|].
    cbn [Job.id] in E. unfold next_rowid in E. lia.
  - intros r Hr E. rewrite addMany_eq in Hr. cbn [snd] in Hr.
    destruct (insertManyJobs_batch
                (map (fun data => mkNewJob type (serializer data) now) dataList) [] st)
      as (_ & Hrows & _).
    rewrite Hrows in Hr. apply in_app_or in Hr as [Hr|Hr]; [now apply Hfinal|].
    apply batch_rows_above in Hr. lia.
  - rewrite schedule_jobs. exact Hfinal.
  - apply Hupd; [reflexivity|]. intros r Hr E W.
    apply andb_true_iff in W as [W _]. apply is_status_true in W.
    destruct (Hfinal r Hr E); congruence.
  - intros r Hr. apply sql_delete_In in Hr as [Hr _]. now apply Hfinal.
  - intros r Hr. apply sql_delete_In in Hr as [Hr _]. now apply Hfinal.
  - rewrite getAndMarkJobAsProcessing_store. cbn [with_jobs plainjob_jobs].
    unfold getAndMarkJobAsProcessingStmt.
    destruct (oldest_pending type (plainjob_jobs st)) as [cand|] eqn:Ec;
      [|exact Hfinal].
    apply oldest_pending_some in Ec as (Hcin & Hcs & _).
    apply Hupd; [reflexivity|]. intros r Hr E W. apply Z.eqb_eq in W.
    assert (r = cand) as -> by (eapply unique_key_eq; eauto).
    destruct (Hfinal cand Hcin E); congruence.
  - rewrite getAndMarkScheduledJobAsProcessing_jobs. exact Hfinal.
  - apply Hupd; [reflexivity|]. intros; left; reflexivity.
  - apply Hupd; [reflexivity|]. intros; right; reflexivity.
  - exact Hfinal.
Qed.

(** No rowid of a store reached from the empty one is above the
    [sqlite_sequence] entry. *)
Lemma reachable_rowids_bounded (cs : list (Z * Call Data)) :
  forall r, In r (plainjob_jobs (calls serializer parseExpression cs empty_store)) ->
    Job.id r <= jobs_seq (calls serializer parseExpression cs empty_store).
Proof.
  assert (H : StronglySorted Z.lt
                (map Job.id (plainjob_jobs (calls serializer parseExpression cs empty_store)))
              /\ (forall j, In j (plainjob_jobs (calls serializer parseExpression cs empty_store)) ->
                    0 < Job.id j <= jobs_seq (calls serializer parseExpression cs empty_store))).
  { apply (calls_preserve Data serializer parseExpression
             (fun s => StronglySorted Z.lt (map Job.id (plainjob_jobs s))
                       /\ (forall j, In j (plainjob_jobs s) ->
                             0 < Job.id j <= jobs_seq s))).
    - intros now c s. apply call_rowids.
    - split; [constructor|intros j []]. }
  intros r Hr. apply (proj2 H) in Hr. lia.
Qed.

(** X20. In a store reached from the empty one, a job that is Done or Failed
    stays Done or Failed for as long as it is in the store, whatever calls
    follow, and its id is never that of a job a later
    [getAndMarkJobAsProcessing] returns: neither a claim nor a requeue
    brings it back, and no new job takes its id once it is removed. *)
Theorem X20_done_and_failed_are_final
    (before after : list (Z * Call Data)) (i : Z) (j : PersistedJob) :
  let st := calls serializer parseExpression before empty_store in
  getJobById i st = Some j ->
  Job.status j = Done \/ Job.status j = Failed ->
  (forall j', getJobById i (calls serializer parseExpression after st) = Some j' ->
     Job.status j' = Done \/ Job.status j' = Failed)
  /\ (forall t job,
        fst (getAndMarkJobAsProcessing t (calls serializer parseExpression after st))
        = Returned (Some job) ->
        Job.id job <> i).
Proof.
  intros st Hj Hs.
  assert (Hnd : unique_ids st) by (apply calls_unique_ids; constructor).
  pose proof (reachable_rowids_bounded before) as Hbound. fold st in Hbound.
  destruct (getJobByIdStmt_some _ _ _ Hj) as [Hin Hid].
  set (Inv := fun s : Store =>
         unique_ids s
         /\ i <= jobs_seq s
         /\ (forall r, In r (plainjob_jobs s) -> Job.id r = i ->
               Job.status r = Done \/ Job.status r = Failed)).
  assert (Hcall : forall now c s, Inv s -> Inv (call serializer parseExpression now c s)).
  { intros now c s (H1 & H3 & H4). split; [|split].
    - now apply call_unique_ids.
    - pose proof (call_jobs_seq Data serializer parseExpression now c s). lia.
    - now apply call_keeps_final_status. }
  assert (H0 : Inv st).
  { split; [exact Hnd|]. split.
    - rewrite <- Hid. now apply Hbound.
    - intros r Hr E. assert (r = j) as -> by (eapply unique_key_eq; eauto; congruence).
      exact Hs. }
  assert (Hafter : forall cs, Inv (calls serializer parseExpression cs st)).
  { intros cs. now apply (calls_preserve Data serializer parseExpression Inv). }
  split.
  - intros j' Hj'. destruct (Hafter after) as (_ & _ & H).
    destruct (getJobByIdStmt_some _ _ _ Hj') as [Hin' Hid']. now apply H.
  - intros t job Hjob E.
    destruct (Hcall 0 (CallGetAndMarkJobAsProcessing t) _ (Hafter after))
      as (_ & _ & H).
    cbn [call] in H. rewrite getAndMarkJobAsProcessing_result in Hjob.
    inversion Hjob as [Hm]. clear Hjob.
    rewrite getAndMarkJobAsProcessing_store in H. cbn [with_jobs plainjob_jobs] in H.
    unfold getUpdatedJobStmt in Hm.
    apply order_by_limit_1_In, filter_In in Hm as (Hmin & Hm).
    apply andb_true_iff in Hm as [Hms _]. apply is_status_true in Hms.
    destruct (H job Hmin E); congruence.
Qed.

End FinalStatuses.

Lemma X20_done_and_failed_are_final_witness :
  exists j',
    getJobById 1
      (calls example_serializer example_parseExpression
         [(5, CallAdd "t"%string "B"%string);
          (6, CallGetAndMarkJobAsProcessing "t"%string);
          (7, CallRequeueTimedOutJobs 0)]
         (calls example_serializer example_parseExpression
            [(1, CallAdd "t"%string "A"%string);
             (2, CallGetAndMarkJobAsProcessing "t"%string);
             (3, CallMarkJobAsDone 1)]
            empty_store))
    = Some j'
    /\ (Job.status j' = Done \/ Job.status j' = Failed).
Proof.
  exists (Job.mk 1 "t" "A" Done 1 None None). split; [reflexivity|].
  apply (proj1 (X20_done_and_failed_are_final string example_serializer
                  example_parseExpression
                  [(1, CallAdd "t"%string "A"%string);
                   (2, CallGetAndMarkJobAsProcessing "t"%string);
                   (3, CallMarkJobAsDone 1)]
                  [(5, CallAdd "t"%string "B"%string);
                   (6, CallGetAndMarkJobAsProcessing "t"%string);
                   (7, CallRequeueTimedOutJobs 0)]
                  1 (Job.mk 1 "t" "A" Done 1 None None)
                  eq_refl (or_introl eq_refl))).
  reflexivity.
Defined.
